(** * Janus (IANVS): the script engine and the scene manager

    A shallow embedding of [backend/engine/SceneManager.ts] and
    [backend/engine/CSGEngine.ts], with the data of [types.ts], and the
    properties of the scene document, of its undo history and of the script
    sandbox that the specification states about them.  The two modules
    [Scene] and [Engine] hold the definitions, [EngineFacts] and [SceneFacts]
    what is proved of them.  [Assistant] and [App] embed the calls of the
    model ([geminiService.ts], [visualFeedbackService.ts]), the captures of
    [Viewer3D.tsx] and the message handler of [App.tsx]; [SolidFacts],
    [RunFacts], [AssistantFacts] and [AppFacts] hold further properties of
    the engine and of these.

    Conventions used throughout:
    - a JavaScript [number] is a [number] below: an exact rational for a finite
      double, or one of the three non-finite doubles.  The code stores and
      copies numbers; the one sum it computes ([duplicateObject]) is rounded
      to the nearest double, as the addition of doubles is.  Negative zero is
      identified with zero;
    - a JavaScript array used as a stack is a list whose last element is the
      most recent one: [push] appends at the end, [pop] removes the last
      element and [shift] the first;
    - a [Map] is an association list in insertion order: [set] on a present key
      replaces the value where it stands, [set] on a new key appends;
    - what the code calls outside the repository is a parameter: the clock,
      the colour parser of THREE and the evaluator of three-bvh-csg in
      [Engine], the answers of the model in [App]. *)

From Stdlib Require Import ZArith QArith Qround Qabs Qpower String List Lia.
From Stdlib Require Import DecimalString DecimalNat.
From stdpp Require Import base tactics option list strings.

Open Scope string_scope.
Open Scope list_scope.

(** ** Numbers and their decimal notation *)

Inductive number : Type :=
| Num (q : Q)
| NaN
| Infinity
| NegInfinity.

(** The double nearest to the rational [q], ties going to the even
    significand (the rounding of every arithmetic operation of JavaScript):
    53 significant bits, the exponent of the last of them not below -1074, and
    an infinity from 2^1024 on. *)
Definition floor_log2 (a : Q) : Z :=
  let k := (Z.log2 (Qnum a) - Z.log2 (Zpos (Qden a)))%Z in
  if Qle_bool (2 ^ k) a then k else (k - 1)%Z.

Definition round_half_even (x : Q) : Z :=
  let f := Qfloor x in
  match Qcompare (x - inject_Z f)%Q (1 # 2) with
  | Lt => f
  | Gt => (f + 1)%Z
  | Eq => if Z.even f then f else (f + 1)%Z
  end.

Definition to_double (q : Q) : number :=
  if Qeq_bool q 0 then Num 0
  else
    let a := Qabs q in
    let e := Z.max (-1074) (floor_log2 a - 52) in
    let m := round_half_even (a / 2 ^ e)%Q in
    let r := (inject_Z m * 2 ^ e)%Q in
    if Qle_bool (2 ^ 1024) r
    then (if Qle_bool 0 q then Infinity else NegInfinity)
    else Num (Qred (if Qle_bool 0 q then r else (- r)%Q)).

(** [`${n}`] for a non-negative integer [n]. *)
Definition decimal (n : nat) : string := NilEmpty.string_of_uint (Nat.to_uint n).

(** [ShapeType] of [types.ts]. *)
Inductive ShapeType := BOX | SPHERE | CYLINDER | CONE | PLANE | MESH.

(** * The scene manager ([SceneManager.ts]) *)

Module Scene.

(** ** Data ([types.ts]) *)

Inductive AIActionType := CREATE | UPDATE | DELETE | CLEAR | UNDO | REDO | FOCUS.

(** The content of a slot declared [number].  [None] is [null]: the cast in
    [loadScene] is unchecked, and [JSON.parse] yields [null] where [NaN] or an
    infinity was serialised. *)
Definition coord : Type := option number.

Definition Vector3 : Type := coord * coord * coord.

(** [geometryData?: any].  The only thing the manager does with it is to
    serialise it: a live THREE geometry comes back from JSON as the plain
    object its [toJSON] describes, and a plain object comes back as itself. *)
Inductive GeometryData :=
| BufferGeometry (uuid : string)
| PlainObject (uuid : string).

Record CADObject := mkCADObject {
  id : string;
  name : string;
  type : ShapeType;
  position : Vector3;
  rotation : Vector3;
  scale : Vector3;
  color : string;
  args : option (list coord);
  selected : option bool;
  visible : option bool;
  geometryData : option GeometryData
}.

(** [Partial<CADObject>]: a field is [None] when it is absent, [undefined] or
    [null]; the code treats the three alike ([||], [!== false], and the filter
    of UPDATE). *)
Module Partial.
Record t := mk {
  id : option string;
  name : option string;
  type : option ShapeType;
  position : option Vector3;
  rotation : option Vector3;
  scale : option Vector3;
  color : option string;
  args : option (list coord);
  selected : option bool;
  visible : option bool;
  geometryData : option GeometryData
}.
Definition empty : t := mk None None None None None None None None None None None.
End Partial.

Record AICommand := mkAICommand {
  action : AIActionType;
  targetId : option string;
  reasoning : option string;
  objectData : option Partial.t
}.

(** ** [Map<string, CADObject>] *)

Definition ObjectMap : Type := list (string * CADObject).

Fixpoint map_get (k : string) (m : ObjectMap) : option CADObject :=
  match m with
  | [] => None
  | (k', v) :: r => if String.eqb k k' then Some v else map_get k r
  end.

Definition map_has (k : string) (m : ObjectMap) : bool :=
  match map_get k m with Some _ => true | None => false end.

Fixpoint map_set (k : string) (v : CADObject) (m : ObjectMap) : ObjectMap :=
  match m with
  | [] => [(k, v)]
  | (k', v') :: r =>
      if String.eqb k k' then (k', v) :: r else (k', v') :: map_set k v r
  end.

Fixpoint map_delete (k : string) (m : ObjectMap) : ObjectMap :=
  match m with
  | [] => []
  | (k', v') :: r =>
      if String.eqb k k' then r else (k', v') :: map_delete k r
  end.

Definition map_values (m : ObjectMap) : list CADObject := List.map snd m.

Definition map_keys (m : ObjectMap) : list string := List.map fst m.

(** ** Snapshots

    [history] and [redoStack] hold JSON text.  A text is represented by what
    [JSON.parse] makes of it: an array, some other value, or a parse error.
    An element of the array is [null] ([None]) or a value taken at the element
    type [loadScene] declares. *)
Inductive json_text :=
| JsonArray (loaded : list (option CADObject))
| JsonOther
| JsonInvalid.

(** What [JSON.parse (JSON.stringify v)] is, slot by slot. *)
Definition json_coord (c : coord) : coord :=
  match c with
  | Some (Num q) => Some (Num q)
  | _ => None
  end.

Definition json_vector (v : Vector3) : Vector3 :=
  let '(a, b, c) := v in (json_coord a, json_coord b, json_coord c).

Definition json_geometry (g : GeometryData) : GeometryData :=
  match g with
  | BufferGeometry u => PlainObject u
  | PlainObject u => PlainObject u
  end.

Definition json_object (o : CADObject) : CADObject :=
  {| id := id o;
     name := name o;
     type := type o;
     position := json_vector (position o);
     rotation := json_vector (rotation o);
     scale := json_vector (scale o);
     color := color o;
     args := option_map (List.map json_coord) (args o);
     selected := selected o;
     visible := visible o;
     geometryData := option_map json_geometry (geometryData o) |}.

(** ** The manager *)

Record SceneManager := mkSceneManager {
  objects : ObjectMap;
  history : list json_text;
  redoStack : list json_text
}.

Definition maxHistory : nat := 20.

(** [constructor()] *)
Definition new : SceneManager :=
  {| objects := []; history := []; redoStack := [] |}.

Definition getObjects (s : SceneManager) : list CADObject := map_values (objects s).

Definition getObject (i : string) (s : SceneManager) : option CADObject :=
  map_get i (objects s).

Definition exportScene (s : SceneManager) : json_text :=
  JsonArray (List.map Some (List.map json_object (map_values (objects s)))).

(** [loaded.forEach(obj => this.objects.set(obj.id, obj))], inside the [try]:
    reading [obj.id] of a [null] element throws, which ends the loop; the
    [catch] logs the error, and what was set before it stays. *)
Fixpoint load_objects (loaded : list (option CADObject)) (acc : ObjectMap)
    : ObjectMap :=
  match loaded with
  | [] => acc
  | Some obj :: rest => load_objects rest (map_set (id obj) obj acc)
  | None :: _ => acc
  end.

(** [loadScene]: a text that does not parse is logged and dropped, a value
    that is not an array is ignored; an array replaces the document, the map
    being cleared before the first element is read. *)
Definition loadScene (json : json_text) (s : SceneManager) : SceneManager :=
  match json with
  | JsonArray loaded =>
      {| objects := load_objects loaded [];
         history := history s;
         redoStack := redoStack s |}
  | JsonOther | JsonInvalid => s
  end.

Definition saveState (s : SceneManager) : SceneManager :=
  let state := exportScene s in
  let pushed := history s ++ [state] in
  {| objects := objects s;
     history := if Nat.ltb maxHistory (length pushed) then tl pushed else pushed;
     redoStack := [] |}.

(** [taken] of [getUniqueName]: the names of the objects whose [id] is not
    [excludeId] ([undefined] excludes nothing). *)
Definition taken_names (excludeId : option string) (m : ObjectMap) : list string :=
  List.map name
    (List.filter
       (fun obj => match excludeId with
                   | Some e => negb (String.eqb (id obj) e)
                   | None => true
                   end)
       (map_values m)).

Definition has (taken : list string) (x : string) : bool :=
  existsb (String.eqb x) taken.

(** The [while] loop of [getUniqueName], entered with [counter]: the counter
    it stops at.  A turn of the loop is taken only when the candidate is one of
    [taken], and distinct counters give distinct candidates, so the loop takes
    at most [length taken] turns ([count_up_spec]). *)
Fixpoint count_up (taken : list string) (baseName : string) (turns counter : nat) : nat :=
  match turns with
  | 0 => counter
  | S turns' =>
      if has taken (baseName +:+ decimal counter)
      then count_up taken baseName turns' (S counter)
      else counter
  end.

Definition getUniqueName (baseName : string) (excludeId : option string)
    (s : SceneManager) : string :=
  let taken := taken_names excludeId (objects s) in
  if negb (has taken baseName) then baseName
  else baseName +:+ decimal (count_up taken baseName (length taken) 1).

Definition with_name (obj : CADObject) (n : string) : CADObject :=
  {| id := id obj; name := n; type := type obj; position := position obj;
     rotation := rotation obj; scale := scale obj; color := color obj;
     args := args obj; selected := selected obj; visible := visible obj;
     geometryData := geometryData obj |}.

Definition set_objects (m : ObjectMap) (s : SceneManager) : SceneManager :=
  {| objects := m; history := history s; redoStack := redoStack s |}.

Definition renameObject (i : string) (newName : string) (s : SceneManager) : SceneManager :=
  match map_get i (objects s) with
  | None => s
  | Some obj =>
      if String.eqb (name obj) newName then s
      else
        let s1 := saveState s in
        let uniqueName := getUniqueName newName (Some i) s1 in
        set_objects (map_set i (with_name obj uniqueName) (objects s1)) s1
  end.

(** [c + 1.5], the sum of two doubles; [null] counts as zero. *)
Definition plus_1_5 (c : coord) : coord :=
  match c with
  | Some (Num q) => Some (to_double (q + (3 # 2)))
  | Some NaN => Some NaN
  | Some Infinity => Some Infinity
  | Some NegInfinity => Some NegInfinity
  | None => Some (Num (3 # 2))
  end.

(** [newId] is the value of
    [`obj_${Date.now()}_${Math.random().toString(36).substr(2, 5)}`]. *)
Definition duplicateObject (newId : string) (i : string) (s : SceneManager) : SceneManager :=
  match map_get i (objects s) with
  | None => s
  | Some obj =>
      let s1 := saveState s in
      let newPos : Vector3 :=
        let '(p0, p1, p2) := position obj in (plus_1_5 p0, p1, p2) in
      let newName := getUniqueName (name obj) None s1 in
      let newObj :=
        {| id := newId; name := newName; type := type obj; position := newPos;
           rotation := rotation obj; scale := scale obj; color := color obj;
           args := args obj; selected := Some false; visible := visible obj;
           geometryData := geometryData obj |} in
      set_objects (map_set newId newObj (objects s1)) s1
  end.

(** [pop] on a non-empty stack, then [loadScene] when the popped text is
    truthy.  The empty text is the one falsy text; it does not parse, and
    [loadScene] drops a text that does not parse, so the test changes nothing. *)
Definition undo (s : SceneManager) : SceneManager :=
  match last (history s) with
  | None => s
  | Some previousState =>
      loadScene previousState
        {| objects := objects s;
           history := removelast (history s);
           redoStack := redoStack s ++ [exportScene s] |}
  end.

Definition redo (s : SceneManager) : SceneManager :=
  match last (redoStack s) with
  | None => s
  | Some nextState =>
      loadScene nextState
        {| objects := objects s;
           history := history s ++ [exportScene s];
           redoStack := removelast (redoStack s) |}
  end.

(** [a || b] where [b] is a string. *)
Definition or_string (a : option string) (b : string) : string :=
  match a with
  | Some x => if String.eqb x "" then b else x
  | None => b
  end.

(** [a || b] where both may be absent. *)
Definition or_else (a b : option string) : option string :=
  match a with
  | Some x => if String.eqb x "" then b else a
  | None => b
  end.

Definition truthy (a : option string) : bool :=
  match a with
  | Some x => negb (String.eqb x "")
  | None => false
  end.

Definition modifies (c : AICommand) : bool :=
  match action c with
  | CREATE | UPDATE | DELETE | CLEAR => true
  | UNDO | REDO | FOCUS => false
  end.

(** [{ ...existing, ...cleanUpdates }] *)
Definition merge (existing : CADObject) (u : Partial.t) : CADObject :=
  {| id := default (id existing) (Partial.id u);
     name := default (name existing) (Partial.name u);
     type := default (type existing) (Partial.type u);
     position := default (position existing) (Partial.position u);
     rotation := default (rotation existing) (Partial.rotation u);
     scale := default (scale existing) (Partial.scale u);
     color := default (color existing) (Partial.color u);
     args := match Partial.args u with Some a => Some a | None => args existing end;
     selected :=
       match Partial.selected u with Some b => Some b | None => selected existing end;
     visible :=
       match Partial.visible u with Some b => Some b | None => visible existing end;
     geometryData :=
       match Partial.geometryData u with
       | Some g => Some g
       | None => geometryData existing
       end |}.

Definition set_partial_name (n : option string) (u : Partial.t) : Partial.t :=
  Partial.mk (Partial.id u) n (Partial.type u) (Partial.position u)
    (Partial.rotation u) (Partial.scale u) (Partial.color u) (Partial.args u)
    (Partial.selected u) (Partial.visible u) (Partial.geometryData u).

(** The object literal of CREATE. *)
Definition newObj (i uniqueName : string) (d : Partial.t) : CADObject :=
  {| id := i;
     name := uniqueName;
     type := default BOX (Partial.type d);
     position := default (Some (Num 0), Some (Num 0), Some (Num 0)) (Partial.position d);
     rotation := default (Some (Num 0), Some (Num 0), Some (Num 0)) (Partial.rotation d);
     scale := default (Some (Num 1), Some (Num 1), Some (Num 1)) (Partial.scale d);
     color := or_string (Partial.color d) "#3b82f6";
     visible := Some (match Partial.visible d with
                      | Some false => false
                      | _ => true
                      end);
     args := Some (default [] (Partial.args d));
     selected := Some false;
     geometryData := None |}.

(** The body of [commands.forEach]; [newId] is the value the template string
    of CREATE has when this command evaluates it. *)
Definition processCommand (newId : string) (cmd : AICommand) (s : SceneManager)
    : SceneManager :=
  let targetId := or_else (targetId cmd) (objectData cmd ≫= Partial.id) in
  match action cmd with
  | CREATE =>
      match objectData cmd with
      | Some d =>
          let i := or_string (Partial.id d) (or_string targetId newId) in
          let rawName := or_string (Partial.name d) "Object" in
          let uniqueName := getUniqueName rawName None s in
          let newObj := newObj i uniqueName d in
          set_objects (map_set (id newObj) newObj (objects s)) s
      | None => s
      end
  | UPDATE =>
      match targetId with
      | Some t =>
          if truthy targetId then
            match map_get t (objects s) with
            | Some existing =>
                let cleanUpdates := default Partial.empty (objectData cmd) in
                let cleanUpdates :=
                  match Partial.name cleanUpdates with
                  | Some n =>
                      if String.eqb n "" then cleanUpdates
                      else set_partial_name (Some (getUniqueName n (Some t) s))
                             cleanUpdates
                  | None => cleanUpdates
                  end in
                set_objects (map_set t (merge existing cleanUpdates) (objects s)) s
            | None => s
            end
          else s
      | None => s
      end
  | DELETE =>
      match targetId with
      | Some t => if truthy targetId then set_objects (map_delete t (objects s)) s else s
      | None => s
      end
  | CLEAR => set_objects [] s
  | UNDO => undo s
  | REDO => redo s
  | FOCUS => s
  end.

(** [commands.forEach], the command at index [k] first. *)
Fixpoint forEach (newId : nat -> string) (k : nat) (commands : list AICommand)
    (s : SceneManager) : SceneManager :=
  match commands with
  | [] => s
  | cmd :: rest => forEach newId (S k) rest (processCommand (newId k) cmd s)
  end.

Definition processCommands (newId : nat -> string) (commands : list AICommand)
    (s : SceneManager) : SceneManager :=
  let modifiesScene := existsb modifies commands in
  forEach newId 0 commands (if modifiesScene then saveState s else s).

(** ** Sessions

    The public operations of a manager, and the states a new manager reaches
    through them. *)
Inductive operation :=
| OpRename (i newName : string)
| OpDuplicate (newId i : string)
| OpCommands (newId : nat -> string) (commands : list AICommand)
| OpUndo
| OpRedo
| OpLoad (json : json_text).

Definition apply_op (o : operation) (s : SceneManager) : SceneManager :=
  match o with
  | OpRename i newName => renameObject i newName s
  | OpDuplicate newId i => duplicateObject newId i s
  | OpCommands newId commands => processCommands newId commands s
  | OpUndo => undo s
  | OpRedo => redo s
  | OpLoad json => loadScene json s
  end.

Definition run (ops : list operation) (s : SceneManager) : SceneManager :=
  fold_left (fun s o => apply_op o s) ops s.

(** The state each operation of [ops] starts from. *)
Fixpoint pre_states (ops : list operation) (s : SceneManager) : list SceneManager :=
  match ops with
  | [] => []
  | o :: rest => s :: pre_states rest (apply_op o s)
  end.

Definition history_command (c : AICommand) : bool :=
  match action c with
  | UNDO | REDO => true
  | _ => false
  end.

(** [mutating o s]: in [s], the operation [o] is an edit of the document that
    the manager snapshots: a rename that finds its object under another name, a
    duplication that finds its object, or a batch with a CREATE, UPDATE, DELETE
    or CLEAR command and no UNDO or REDO command. *)
Definition mutating (o : operation) (s : SceneManager) : bool :=
  match o with
  | OpRename i newName =>
      match map_get i (objects s) with
      | Some obj => negb (String.eqb (name obj) newName)
      | None => false
      end
  | OpDuplicate _ i => map_has i (objects s)
  | OpCommands _ commands =>
      existsb modifies commands && negb (existsb history_command commands)
  | OpUndo | OpRedo | OpLoad _ => false
  end.

Fixpoint all_mutating (ops : list operation) (s : SceneManager) : bool :=
  match ops with
  | [] => true
  | o :: rest => mutating o s && all_mutating rest (apply_op o s)
  end.

(** The identifier a CREATE command asks for: [objectData.id], or else
    [targetId]; [None] when both are absent or empty. *)
Definition requested_id (cmd : AICommand) : option string :=
  match objectData cmd with
  | Some d =>
      let r := or_else (Partial.id d) (targetId cmd) in
      if truthy r then r else None
  | None => None
  end.

(** The two stacks together hold at most [maxHistory] snapshots. *)
Definition bounded (s : SceneManager) : Prop :=
  length (history s) + length (redoStack s) <= maxHistory.

(** Every object is stored under its own identifier. *)
Definition keyed_by_id (s : SceneManager) : Prop :=
  Forall (fun e : string * CADObject => id (snd e) = fst e) (objects s).

(** [keeps_ids o]: no UPDATE command of [o] carries an [id] field. *)
Definition keeps_id (c : AICommand) : bool :=
  match action c, objectData c ≫= Partial.id with
  | UPDATE, Some _ => false
  | _, _ => true
  end.

Definition keeps_ids (o : operation) : bool :=
  match o with
  | OpCommands _ commands => forallb keeps_id commands
  | _ => true
  end.

(** No two objects of the document share a name. *)
Definition unique_names (s : SceneManager) : Prop :=
  NoDup (List.map name (getObjects s)).

Definition well_named (s : SceneManager) : Prop :=
  NoDup (map_keys (objects s)) /\ keyed_by_id s /\ unique_names s.

(** [naming o]: a rename, a duplication, or a batch of CREATE, DELETE, CLEAR
    and FOCUS commands. *)
Definition naming_command (c : AICommand) : bool :=
  match action c with
  | CREATE | DELETE | CLEAR | FOCUS => true
  | UPDATE | UNDO | REDO => false
  end.

Definition naming (o : operation) : bool :=
  match o with
  | OpRename _ _ | OpDuplicate _ _ => true
  | OpCommands _ commands => forallb naming_command commands
  | OpUndo | OpRedo | OpLoad _ => false
  end.

(** Every object reads back from JSON as it was written: its numbers are
    finite and it carries no live geometry. *)
Definition json_safe (s : SceneManager) : Prop :=
  Forall (fun obj => json_object obj = obj) (getObjects s).

(** ** Concrete commands and sessions *)

Definition create (i : option string) (n : string) : AICommand :=
  mkAICommand CREATE None None
    (Some (Partial.mk i (Some n) None None None None None None None None None)).

Definition ids (k : nat) : string := "obj_" +:+ decimal k.

(** An object in use, and a CREATE command that asks for its identifier. *)
Definition one_cube : SceneManager := processCommands ids [create (Some "a") "Cube"] new.

Definition update (t : string) (u : Partial.t) : AICommand :=
  mkAICommand UPDATE (Some t) None (Some u).

(** A document with a position that is not a number, and a document in which
    an UPDATE has given the object stored under "a" the identifier "b". *)
Definition nan_scene : SceneManager :=
  run [OpCommands ids
         [mkAICommand CREATE None None
            (Some (Partial.mk (Some "a") (Some "Cube") None
                     (Some (Some NaN, Some (Num 0), Some (Num 0)))
                     None None None None None None None))]] new.

Definition clash_scene : SceneManager :=
  run [OpCommands ids
         [create (Some "a") "Left"; create (Some "b") "Right";
          update "a" (Partial.mk (Some "b") None None None None None None None None
                        None None)]] new.

(** Twenty-one batches of one CREATE command each: the first creates "First",
    the others an object under the name "Cube". *)
Definition first_batch : operation := OpCommands ids [create None "First"].

Definition twenty_batches : list operation :=
  List.map (fun k => OpCommands (fun _ => ids k) [create None "Cube"]) (seq 1 20).

(** ** Snapshots on the stacks *)

(** The elements of an array that [loadScene] gets through: those before the
    first [null]. *)
Fixpoint until_null (loaded : list (option CADObject)) : list CADObject :=
  match loaded with
  | Some obj :: rest => obj :: until_null rest
  | None :: _ | [] => []
  end.

(** A snapshot that reads back as the text it is: none of its elements is
    [null], no two of its objects share an identifier, and each object is as
    JSON writes it. *)
Definition snapshot_ok (x : json_text) : Prop :=
  match x with
  | JsonArray loaded =>
      loaded = List.map Some (until_null loaded) /\
      NoDup (List.map id (until_null loaded)) /\
      Forall (fun obj => json_object obj = obj) (until_null loaded)
  | JsonOther | JsonInvalid => False
  end.

(** The keys of the document are distinct, every object is stored under its
    own identifier, and both stacks hold snapshots that read back. *)
Definition consistent (s : SceneManager) : Prop :=
  NoDup (map_keys (objects s)) /\ keyed_by_id s /\
  Forall snapshot_ok (history s) /\ Forall snapshot_ok (redoStack s).

(** A session of three edits, and the same session with its last edit undone. *)
Definition three_edits : list operation :=
  [OpCommands ids [create (Some "a") "Cube"; create (Some "b") "Cube"];
   OpRename "a" "Base";
   OpDuplicate "c" "b"].

Definition three_edits_undone : list operation := three_edits ++ [OpUndo].

(** What a command of a batch without CREATE, UPDATE, DELETE and CLEAR stands
    for: a call of [undo], a call of [redo], or nothing. *)
Definition replay (c : AICommand) (s : SceneManager) : SceneManager :=
  match action c with
  | UNDO => undo s
  | REDO => redo s
  | _ => s
  end.

(** The fields a duplicate takes over from its original. *)
Definition appearance (obj : CADObject) :=
  (type obj, rotation obj, scale obj, color obj, args obj, visible obj,
   geometryData obj).

(** The UPDATE command for [t] with the fields [u], and the DELETE command
    for [t]. *)
Definition delete (t : string) : AICommand := mkAICommand DELETE (Some t) None None.

Definition move_to (p : Vector3) : Partial.t :=
  Partial.mk None None None (Some p) None None None None None None None.

(** The fields of an UPDATE as [processCommand] merges them: a name that is
    not empty is made unique among the other objects first. *)
Definition clean_updates (t : string) (cmd : AICommand) (s : SceneManager) : Partial.t :=
  let u := default Partial.empty (objectData cmd) in
  match Partial.name u with
  | Some n =>
      if String.eqb n "" then u else set_partial_name (Some (getUniqueName n (Some t) s)) u
  | None => u
  end.

(** The identifier CREATE stores its object under:
    [cmd.objectData.id || targetId || `obj_...`]. *)
Definition created_id (newId : string) (cmd : AICommand) (d : Partial.t) : string :=
  or_string (Partial.id d)
    (or_string (or_else (targetId cmd) (objectData cmd ≫= Partial.id)) newId).

(** An array whose second element is [null]. *)
Definition half_loaded : list (option CADObject) :=
  [Some (newObj "a" "First" Partial.empty); None;
   Some (newObj "b" "Second" Partial.empty)].

(** The UNDO command. *)
Definition undo_command : AICommand := mkAICommand UNDO None None None.

End Scene.

(** * The script engine ([CSGEngine.ts]) *)

Module Engine.

(** ** Values of a script

    A script is JavaScript text: what it passes to a builtin is any value, the
    declared parameter types notwithstanding.  Brushes are objects that the
    builtins mutate in place, so a script holds references to them. *)

Inductive builtin :=
| FnBox | FnSphere | FnCylinder
| FnMove | FnRotate | FnScale | FnColor
| FnUnion | FnSubtract | FnIntersect
| FnAdd.

Inductive value :=
| VUndefined
| VNull
| VBoolean (b : bool)
| VNumber (n : number)
| VString (s : string)
| VBrush (ref : nat)         (* a Brush, by its place in the heap *)
| VFunction (f : builtin)    (* an arrow function of the context *)
| VContext                   (* the CADContext instance *)
| VArguments.                (* the [arguments] object of the function *)

(** [!!v] *)
Definition truthy (v : value) : bool :=
  match v with
  | VUndefined | VNull => false
  | VBoolean b => b
  | VNumber (Num q) => negb (Qeq_bool q 0)
  | VNumber NaN => false
  | VNumber _ => true
  | VString s => negb (String.eqb s "")
  | VBrush _ | VFunction _ | VContext | VArguments => true
  end.

Definition Vec3 : Type := value * value * value.

(** ** The THREE objects the context works with

    A geometry is the record of how it was made.  Of a material the code reads
    and writes the colour only, kept as the six digits [getHexString] prints.
    [matrixWorld] is the placement [updateMatrixWorld] last composed. *)

Inductive operation := ADDITION | SUBTRACTION | INTERSECTION.

Definition Matrix4 : Type := Vec3 * Vec3 * Vec3.

Inductive BufferGeometry :=
| BoxGeometry (width height depth : value)
| SphereGeometry (radius : value) (widthSegments heightSegments : nat)
| CylinderGeometry (radiusTop radiusBottom height : value) (radialSegments : nat)
| Evaluated (op : operation) (a : BufferGeometry) (aWorld : Matrix4)
    (b : BufferGeometry) (bWorld : Matrix4).

Record MeshStandardMaterial := mkMaterial { color : string }.

Record Brush := mkBrush {
  geometry : BufferGeometry;
  material : MeshStandardMaterial;
  userData_type : option string;
  position : Vec3;
  rotation : Vec3;
  scale : Vec3;
  matrixWorld : Matrix4
}.

Definition zero : value := VNumber (Num 0).
Definition one : value := VNumber (Num 1).

(** [new Brush(geometry, material)] *)
Definition new_Brush (geo : BufferGeometry) (mat : MeshStandardMaterial) : Brush :=
  {| geometry := geo; material := mat; userData_type := None;
     position := (zero, zero, zero); rotation := (zero, zero, zero);
     scale := (one, one, one);
     matrixWorld := ((zero, zero, zero), (zero, zero, zero), (one, one, one)) |}.

Definition updateMatrixWorld (b : Brush) : Brush :=
  {| geometry := geometry b; material := material b;
     userData_type := userData_type b;
     position := position b; rotation := rotation b; scale := scale b;
     matrixWorld := (position b, rotation b, scale b) |}.

(** [Vector3.set(x, y, z)] keeps the old third component when [z] is
    [undefined]; [Euler.set(x, y, z)] stores what it is given. *)
Definition Vector3_set (x y z : value) (old : Vec3) : Vec3 :=
  (x, y, match z with VUndefined => snd old | _ => z end).

Definition Euler_set (x y z : value) : Vec3 := (x, y, z).

(** What a script run leaves in [CADContext.objects]: the [CADObject] of
    [types.ts], its slots holding what the script passed. *)
Record CADObject := mkCADObject {
  id : string;
  name : value;
  type : ShapeType;
  obj_position : Vec3;
  obj_rotation : Vec3;
  obj_scale : Vec3;
  obj_color : string;
  visible : bool;
  selected : bool;
  geometryData : BufferGeometry
}.

(** ** Outcomes *)

Inductive Thrown :=
| SyntaxError
| ReferenceError (x : string)
| TypeError (what : string)
| Error (message : string)      (* an error of a library *)
| LineError (cause : Thrown).   (* [new Error("Line ?: " + cause.message)] *)

(** [Unfinished]: the run is still going when the steps counted are used up. *)
Inductive result (A : Type) :=
| Ok (a : A)
| Throw (e : Thrown)
| Unfinished.
Arguments Ok {A} a.
Arguments Throw {A} e.
Arguments Unfinished {A}.

Definition bind {A B : Type} (r : result A) (k : A -> result B) : result B :=
  match r with
  | Ok a => k a
  | Throw e => Throw e
  | Unfinished => Unfinished
  end.

(** What a call into a library comes to: it returns or it throws. *)
Inductive outcome (A : Type) :=
| Returns (a : A)
| Throws (e : Thrown).
Arguments Returns {A} a.
Arguments Throws {A} e.

Definition Heap : Type := list Brush.

(** The brushes made so far, and the fields of the context that the builtins
    read and write: [CADContext.objects] and [CADContext.material]. *)
Record State := mkState {
  heap : Heap;
  objects : list CADObject;
  ctx_material : MeshStandardMaterial
}.

(** ** The builtins *)

Definition arg (k : nat) (args : list value) : value := nth k args VUndefined.

(** A parameter with a default value. *)
Definition or_default (v d : value) : value :=
  match v with VUndefined => d | _ => v end.

Definition alloc (b : Brush) (h : Heap) : result (value * Heap) :=
  Ok (VBrush (length h), h ++ [b]).

(** The material of a new context: the colour 0xcccccc. *)
Definition context_material : MeshStandardMaterial := {| color := "cccccc" |}.

Definition with_type (t : string) (b : Brush) : Brush :=
  {| geometry := geometry b; material := material b; userData_type := Some t;
     position := position b; rotation := rotation b; scale := scale b;
     matrixWorld := matrixWorld b |}.

(** The primitives.  [mat] is [this.material] at the time of the call, of
    which the new brush gets a clone. *)
Definition Box (mat : MeshStandardMaterial) (args : list value) (h : Heap)
    : result (value * Heap) :=
  let width := or_default (arg 0 args) one in
  let height := or_default (arg 1 args) one in
  let depth := or_default (arg 2 args) one in
  let geo := BoxGeometry width height depth in
  let brush := new_Brush geo mat in
  alloc (updateMatrixWorld (with_type "BOX" brush)) h.

Definition Sphere (mat : MeshStandardMaterial) (args : list value) (h : Heap)
    : result (value * Heap) :=
  let radius := or_default (arg 0 args) (VNumber (Num (1 # 2))) in
  let geo := SphereGeometry radius 32 32 in
  let brush := new_Brush geo mat in
  alloc (updateMatrixWorld (with_type "SPHERE" brush)) h.

Definition Cylinder (mat : MeshStandardMaterial) (args : list value) (h : Heap)
    : result (value * Heap) :=
  let radiusTop := or_default (arg 0 args) (VNumber (Num (1 # 2))) in
  let radiusBottom := or_default (arg 1 args) (VNumber (Num (1 # 2))) in
  let height := or_default (arg 2 args) one in
  let geo := CylinderGeometry radiusTop radiusBottom height 32 in
  let brush := new_Brush geo mat in
  alloc (updateMatrixWorld (with_type "CYLINDER" brush)) h.

(** A member access or a method call on [mesh], which must be a brush: on
    any other value that passed the [!mesh] test the property read is
    [undefined] and the use of it a [TypeError].  A reference that a script
    holds points into the heap, which only grows; the case of a reference
    outside it is there for the function to be total. *)
Definition on_brush (mesh : value) (what : string) (h : Heap)
    (k : nat -> Brush -> result (value * Heap)) : result (value * Heap) :=
  match mesh with
  | VBrush ref =>
      match h !! ref with
      | Some b => k ref b
      | None => Throw (TypeError what)
      end
  | _ => Throw (TypeError what)
  end.

Definition with_position (p : Vec3) (b : Brush) : Brush :=
  {| geometry := geometry b; material := material b;
     userData_type := userData_type b;
     position := p; rotation := rotation b; scale := scale b;
     matrixWorld := matrixWorld b |}.

Definition with_rotation (r : Vec3) (b : Brush) : Brush :=
  {| geometry := geometry b; material := material b;
     userData_type := userData_type b;
     position := position b; rotation := r; scale := scale b;
     matrixWorld := matrixWorld b |}.

Definition with_scale (sc : Vec3) (b : Brush) : Brush :=
  {| geometry := geometry b; material := material b;
     userData_type := userData_type b;
     position := position b; rotation := rotation b; scale := sc;
     matrixWorld := matrixWorld b |}.

Definition with_material (m : MeshStandardMaterial) (b : Brush) : Brush :=
  {| geometry := geometry b; material := m;
     userData_type := userData_type b;
     position := position b; rotation := rotation b; scale := scale b;
     matrixWorld := matrixWorld b |}.

Definition Move (args : list value) (h : Heap) : result (value * Heap) :=
  let mesh := arg 0 args in
  if negb (truthy mesh) then Ok (mesh, h)
  else on_brush mesh "mesh.position is undefined" h (fun ref b =>
    let b1 := with_position
                (Vector3_set (arg 1 args) (arg 2 args) (arg 3 args) (position b)) b in
    Ok (mesh, <[ref := updateMatrixWorld b1]> h)).

Definition Rotate (args : list value) (h : Heap) : result (value * Heap) :=
  let mesh := arg 0 args in
  if negb (truthy mesh) then Ok (mesh, h)
  else on_brush mesh "mesh.rotation is undefined" h (fun ref b =>
    let b1 := with_rotation (Euler_set (arg 1 args) (arg 2 args) (arg 3 args)) b in
    Ok (mesh, <[ref := updateMatrixWorld b1]> h)).

Definition Scale (args : list value) (h : Heap) : result (value * Heap) :=
  let mesh := arg 0 args in
  if negb (truthy mesh) then Ok (mesh, h)
  else on_brush mesh "mesh.scale is undefined" h (fun ref b =>
    let b1 := with_scale
                (Vector3_set (arg 1 args) (arg 2 args) (arg 3 args) (scale b)) b in
    Ok (mesh, <[ref := updateMatrixWorld b1]> h)).

Section Builtins.

(** [color_set hex old]: the digits [getHexString] prints for a colour that
    printed [old] before [set(hex)] was called on it (THREE's parser of colour
    names and styles). *)
Variable color_set : value -> string -> string.

(** [Date.now()], by how many objects the run has added so far. *)
Variable now : nat -> nat.

(** [Evaluator.evaluate(a, b, op)] of three-bvh-csg, which is no part of
    this repository: given the two brushes as they stand, their world matrices
    just composed, it returns a brush of its own making or throws.  It is
    taken to leave its operands as they are; of the brush it returns, and of
    when it throws, nothing is assumed. *)
Variable evaluate : Brush -> Brush -> operation -> outcome Brush.

(** A builtin that works on brushes alone. *)
Definition on_heap (f : list value -> Heap -> result (value * Heap))
    (args : list value) (st : State) : result (value * State) :=
  bind (f args (heap st))
    (fun r => Ok (fst r, {| heap := snd r; objects := objects st;
                            ctx_material := ctx_material st |})).

(** [Color] reads [mesh.material].  The material of a brush made by these
    builtins is never an array, so on a brush the call takes its second
    branch: the brush gets a clone with the new colour.  The context has a
    [material] of its own, the one the primitives clone, so on [ctx] the call
    takes the same branch: the context gets the clone, and [ctx] is returned.
    No other value of a script has a [material]. *)
Definition Color (args : list value) (st : State) : result (value * State) :=
  let mesh := arg 0 args in
  if negb (truthy mesh) then Ok (mesh, st)
  else
    match mesh with
    | VContext =>
        let newMat := {| color := color_set (arg 1 args) (color (ctx_material st)) |} in
        Ok (mesh, {| heap := heap st; objects := objects st; ctx_material := newMat |})
    | _ =>
        on_heap
          (fun args h =>
             on_brush mesh "mesh.material is undefined" h (fun ref b =>
               let newMat :=
                 {| color := color_set (arg 1 args) (color (material b)) |} in
               Ok (mesh, <[ref := with_material newMat b]> h)))
          args st
    end.

(** [Union], [Subtract] and [Intersect] have one body, up to the operation
    they pass to the evaluator.  The world matrices of the operands are
    composed, the evaluator is called, and of the brush it returns the code
    sets the type and the material; what the evaluator throws, the call
    throws. *)
Definition csg (op : operation) (args : list value) (h : Heap) : result (value * Heap) :=
  let a := arg 0 args in
  let b := arg 1 args in
  if negb (truthy a) || negb (truthy b)
  then Ok (if truthy a then a else b, h)
  else
    on_brush a "a.updateMatrixWorld is not a function" h (fun refa ba =>
      let h1 := <[refa := updateMatrixWorld ba]> h in
      on_brush b "b.updateMatrixWorld is not a function" h1 (fun refb bb =>
        let h2 := <[refb := updateMatrixWorld bb]> h1 in
        match h2 !! refa, h2 !! refb with
        | Some ba', Some bb' =>
            match evaluate ba' bb' op with
            | Returns result =>
                alloc (with_material (material ba') (with_type "MESH" result)) h2
            | Throws e => Throw e
            end
        | _, _ => Throw (TypeError "a.updateMatrixWorld is not a function")
        end)).

Definition Union : list value -> Heap -> result (value * Heap) := csg ADDITION.
Definition Subtract : list value -> Heap -> result (value * Heap) := csg SUBTRACTION.
Definition Intersect : list value -> Heap -> result (value * Heap) := csg INTERSECTION.

Definition Add (args : list value) (st : State) : result (value * State) :=
  let mesh := arg 0 args in
  let name := arg 1 args in
  if negb (truthy mesh) then Ok (VUndefined, st)
  else
    match mesh with
    | VBrush ref =>
        match heap st !! ref with
        | Some b =>
            let finalGeom := geometry b in
            let color := "#" +:+ color (material b) in
            let n := length (objects st) in
            let obj :=
              {| id := "obj_" +:+ decimal n +:+ "_" +:+ decimal (now n);
                 name := name;
                 type := MESH;
                 obj_position := position b;
                 obj_rotation := rotation b;
                 obj_scale := scale b;
                 obj_color := color;
                 visible := true;
                 selected := false;
                 geometryData := finalGeom |} in
            Ok (VUndefined, {| heap := heap st; objects := objects st ++ [obj];
                               ctx_material := ctx_material st |})
        | None => Throw (TypeError "mesh.geometry is undefined")
        end
    | _ => Throw (TypeError "mesh.geometry is undefined")
    end.

Definition apply_builtin (f : builtin) (args : list value) (st : State)
    : result (value * State) :=
  match f with
  | FnBox => on_heap (Box (ctx_material st)) args st
  | FnSphere => on_heap (Sphere (ctx_material st)) args st
  | FnCylinder => on_heap (Cylinder (ctx_material st)) args st
  | FnMove => on_heap Move args st
  | FnRotate => on_heap Rotate args st
  | FnScale => on_heap Scale args st
  | FnColor => Color args st
  | FnUnion => on_heap Union args st
  | FnSubtract => on_heap Subtract args st
  | FnIntersect => on_heap Intersect args st
  | FnAdd => Add args st
  end.

(** ** Scripts

    [execute] hands the script text to [new Function].  A script is taken
    here as the statements it parses to, in the part of JavaScript that the
    scripts of this application are written in: [const] declarations,
    expression statements and [while] loops over identifiers, literals and
    calls.  What a script of this part can call is a builtin: the globals of
    the page are taken as data ([globals] below), and there is no member
    access, so a script here reaches the fields of the context through the
    builtins only.  Text outside this part (a call of [Math.random()], of
    [eval], of [ctx.getResults()]) is run by the code like any other and is
    not represented; a statement below about every script is about every
    script of this part. *)

#[local] Unset Elimination Schemes.

Inductive expr :=
| EVar (x : string)
| ENum (n : number)
| EStr (s : string)
| ENull
| ECall (callee : expr) (args : list expr).

Inductive stmt :=
| SConst (x : string) (e : expr)
| SExpr (e : expr)
| SWhile (cond : expr) (body : list stmt).

#[local] Set Elimination Schemes.

(** A scope holds its names from the start of its block; a [const] has no
    value ([None]) until its declaration has run. *)
Definition Scope : Type := list (string * option value).

Fixpoint scope_find (x : string) (sc : Scope) : option (option value) :=
  match sc with
  | [] => None
  | (y, v) :: rest => if String.eqb x y then Some v else scope_find x rest
  end.

Fixpoint find (x : string) (env : list Scope) : option (option value) :=
  match env with
  | [] => None
  | sc :: outer =>
      match scope_find x sc with
      | Some v => Some v
      | None => find x outer
      end
  end.

Fixpoint scope_init (x : string) (v : value) (sc : Scope) : Scope :=
  match sc with
  | [] => []
  | (y, old) :: rest =>
      if String.eqb x y then (y, Some v) :: rest else (y, old) :: scope_init x v rest
  end.

(** The declaration [const x = v] completes, in the innermost scope. *)
Definition initialise (x : string) (v : value) (env : list Scope) : list Scope :=
  match env with
  | [] => []
  | sc :: outer => scope_init x v sc :: outer
  end.

Fixpoint declared (body : list stmt) : list string :=
  match body with
  | [] => []
  | SConst x _ :: rest => x :: declared rest
  | _ :: rest => declared rest
  end.

(** The scope a block opens. *)
Definition block_scope (body : list stmt) : Scope :=
  List.map (fun x => (x, None)) (declared body).

Fixpoint has_duplicate (names : list string) : bool :=
  match names with
  | [] => false
  | x :: rest => existsb (String.eqb x) rest || has_duplicate rest
  end.

(** A name declared twice in one block: the text is rejected when the
    function is made, before any statement runs. *)
Fixpoint early_error_in (s : stmt) : bool :=
  match s with
  | SWhile _ inner => has_duplicate (declared inner) || existsb early_error_in inner
  | _ => false
  end.

Definition early_error (body : list stmt) : bool :=
  has_duplicate (declared body) || existsb early_error_in body.

(** The names [const { Box, ..., Add } = ctx] binds, in that order. *)
Definition builtin_table : list (string * builtin) :=
  [("Box", FnBox); ("Sphere", FnSphere); ("Cylinder", FnCylinder);
   ("Move", FnMove); ("Rotate", FnRotate); ("Scale", FnScale);
   ("Color", FnColor); ("Union", FnUnion); ("Subtract", FnSubtract);
   ("Intersect", FnIntersect); ("Add", FnAdd)].

Definition builtin_names : list string := List.map fst builtin_table.

(** The scopes around the script: the [const] of the function body, and the
    parameter [ctx] with the [arguments] object of the function. *)
Definition body_scope : Scope :=
  List.map (fun e : string * builtin => (fst e, Some (VFunction (snd e)))) builtin_table.

Definition function_scope : Scope :=
  [("ctx", Some VContext); ("arguments", Some VArguments)].

(** The global scope of the page, which a function made by [new Function]
    closes over. *)
Variable globals : string -> option value.

Definition resolve (x : string) (env : list Scope) : result value :=
  match find x env with
  | Some (Some v) => Ok v
  | Some None => Throw (ReferenceError x)
  | None =>
      match globals x with
      | Some v => Ok v
      | None => Throw (ReferenceError x)
      end
  end.

Definition call (f : value) (args : list value) (st : State) : result (value * State) :=
  match f with
  | VFunction b => apply_builtin b args st
  | _ => Throw (TypeError "callee is not a function")
  end.

(** The arguments of a call, left to right. *)
Fixpoint eval_list (ev : expr -> State -> result (value * State))
    (args : list expr) (st : State) : result (list value * State) :=
  match args with
  | [] => Ok ([], st)
  | a :: rest =>
      bind (ev a st) (fun r =>
        bind (eval_list ev rest (snd r)) (fun rs =>
          Ok (fst r :: fst rs, snd rs)))
  end.

Fixpoint eval (fuel : nat) (e : expr) (env : list Scope) (st : State)
    : result (value * State) :=
  match fuel with
  | 0 => Unfinished
  | S fuel' =>
      match e with
      | EVar x => bind (resolve x env) (fun v => Ok (v, st))
      | ENum n => Ok (VNumber n, st)
      | EStr s => Ok (VString s, st)
      | ENull => Ok (VNull, st)
      | ECall callee args =>
          bind (eval fuel' callee env st) (fun f =>
            bind (eval_list (fun a st' => eval fuel' a env st') args (snd f)) (fun vs =>
              call (fst f) (fst vs) (snd vs)))
      end
  end.

Fixpoint exec (fuel : nat) (body : list stmt) (env : list Scope) (st : State)
    : result State :=
  match body with
  | [] => Ok st
  | s :: rest =>
      match fuel with
      | 0 => Unfinished
      | S fuel' =>
          match s with
          | SConst x e =>
              bind (eval fuel' e env st) (fun r =>
                exec fuel' rest (initialise x (fst r) env) (snd r))
          | SExpr e =>
              bind (eval fuel' e env st) (fun r => exec fuel' rest env (snd r))
          | SWhile cond inner =>
              bind (eval fuel' cond env st) (fun r =>
                if truthy (fst r)
                then bind (exec fuel' inner (block_scope inner :: env) (snd r))
                       (fun st' => exec fuel' (SWhile cond inner :: rest) env st')
                else exec fuel' rest env (snd r))
          end
      end
  end.

(** [new CADContext()] *)
Definition new_context : State :=
  {| heap := []; objects := []; ctx_material := context_material |}.

(** [execute(code)]: the function is made, which fails on a text with an
    early error; it is called on a new context; what the script throws is
    thrown again with the line prefix.  The outer [catch] logs and rethrows.
    [fuel] counts the steps the run is followed for. *)
Definition execute (fuel : nat) (code : list stmt) : result (list CADObject) :=
  if early_error code then Throw SyntaxError
  else
    match exec fuel code [block_scope code; body_scope; function_scope] new_context with
    | Ok st => Ok (objects st)
    | Throw e => Throw (LineError e)
    | Unfinished => Unfinished
    end.

(** ** What the statements below are about *)

(** [null] or [undefined]. *)
Definition absent (v : value) : bool :=
  match v with
  | VUndefined | VNull => true
  | _ => false
  end.

(** The name [x] resolves to a value where the script starts. *)
Definition in_scope (x : string) : Prop :=
  exists v, resolve x [[]; body_scope; function_scope] = Ok v.

Definition builtin_named (x : string) : option builtin :=
  snd <$> List.find (fun e : string * builtin => String.eqb x (fst e)) builtin_table.

(** An object without its identifier. *)
Definition strip (o : CADObject) : CADObject :=
  {| id := ""; name := name o; type := type o;
     obj_position := obj_position o; obj_rotation := obj_rotation o;
     obj_scale := obj_scale o; obj_color := obj_color o;
     visible := visible o; selected := selected o;
     geometryData := geometryData o |}.

End Builtins.

(** The identifiers [Add] gives to the first [n] objects of a run. *)
Definition stamps (now : nat -> nat) (n : nat) : list string :=
  List.map (fun k => "obj_" +:+ decimal k +:+ "_" +:+ decimal (now k)) (seq 0 n).

(** Two outcomes of one kind, with results related by [R]. *)
Definition alike {A : Type} (R : A -> A -> Prop) (r1 r2 : result A) : Prop :=
  match r1, r2 with
  | Ok a1, Ok a2 => R a1 a2
  | Throw e1, Throw e2 => e1 = e2
  | Unfinished, Unfinished => True
  | _, _ => False
  end.

(** Two states of a run of one script under the clocks [now1] and [now2]: the
    same brushes, the same objects up to their identifiers, and the
    identifiers those of each clock. *)
Definition same_run (now1 now2 : nat -> nat) (st1 st2 : State) : Prop :=
  (heap st1 = heap st2 /\ ctx_material st1 = ctx_material st2) /\
  List.map strip (objects st1) = List.map strip (objects st2) /\
  List.map id (objects st1) = stamps now1 (length (objects st1)) /\
  List.map id (objects st2) = stamps now2 (length (objects st2)).


Definition same_value (now1 now2 : nat -> nat) (r1 r2 : value * State) : Prop :=
  fst r1 = fst r2 /\ same_run now1 now2 (snd r1) (snd r2).

(** The steps that suffice to follow an expression, and a list of statements
    without loops, to the end. *)
Fixpoint depth (e : expr) : nat :=
  match e with
  | ECall callee args => S (Nat.max (depth callee) (list_max (List.map depth args)))
  | _ => 1
  end.

Fixpoint steps (body : list stmt) : nat :=
  match body with
  | [] => 0
  | SConst _ e :: rest => S (Nat.max (depth e) (steps rest))
  | SExpr e :: rest => S (Nat.max (depth e) (steps rest))
  | SWhile cond _ :: rest => S (Nat.max (depth cond) (steps rest))
  end.


(** ** Concrete scripts and hosts *)

Definition num (z : Z) : expr := ENum (Num (inject_Z z)).

(** [const a = Box(1, 1, 1); Add(a, "Cube");
     const b = Box(1, 1, 1); Add(b, "Cube");] *)
Definition two_cubes : list stmt :=
  [SConst "a" (ECall (EVar "Box") [num 1; num 1; num 1]);
   SExpr (ECall (EVar "Add") [EVar "a"; EStr "Cube"]);
   SConst "b" (ECall (EVar "Box") [num 1; num 1; num 1]);
   SExpr (ECall (EVar "Add") [EVar "b"; EStr "Cube"])].


(** An evaluator that makes a brush of the geometries of its operands where
    they stand, and puts it where the first operand stands. *)
Definition placed_as_first (a b : Brush) (op : operation) : outcome Brush :=
  Returns
    {| geometry := Evaluated op (geometry a) (matrixWorld a) (geometry b) (matrixWorld b);
       material := material a; userData_type := None;
       position := position a; rotation := rotation a; scale := scale a;
       matrixWorld := matrixWorld a |}.

(** An evaluator that finds no geometry to work on. *)
Definition fails_to_evaluate (a b : Brush) (op : operation) : outcome Brush :=
  Throws (Error "empty geometry").

(** A page with no global of its own, a colour parser that knows no colour,
    and two clocks. *)
Definition no_globals (x : string) : option value := None.
Definition keep_color (hex : value) (old : string) : string := old.
Definition morning (k : nat) : nat := 1000 + k.
Definition evening (k : nat) : nat := 2000 + k.


(** A page whose one global is [origin], a string. *)
Definition page_globals (x : string) : option value :=
  if String.eqb x "origin" then Some (VString "https://janus.example") else None.



(** A heap with one box in it. *)
Definition one_box : Heap :=
  [updateMatrixWorld (with_type "BOX" (new_Brush (BoxGeometry one one one) context_material))].

(** ** What the statements on brushes are about *)

(** Where a brush stands: its position, rotation and scale. *)
Definition placement (b : Brush) : Matrix4 := (position b, rotation b, scale b).

(** [b'] has the geometry and the kind of [b]. *)
Definition same_solid (b b' : Brush) : Prop :=
  geometry b' = geometry b /\ userData_type b' = userData_type b.


(** An object as [Add] makes it. *)
Definition added (o : CADObject) : Prop :=
  type o = MESH /\ visible o = true /\ selected o = false /\
  exists digits, obj_color o = "#" +:+ digits.

(** [grows st st']: [st'] has the objects of [st], in place and as they were,
    followed by objects that [Add] made; and it has every brush of [st] in its
    place, with the geometry and the kind it had. *)
Definition grows (st st' : State) : Prop :=
  (exists more, objects st' = objects st ++ more /\ Forall added more) /\
  length (heap st) <= length (heap st') /\
  forall k b, heap st !! k = Some b -> exists b', heap st' !! k = Some b' /\ same_solid b b'.

(** A box moved to (2, 0, 0), and a sphere. *)
Definition two_solids : Heap :=
  [updateMatrixWorld
     (with_position (VNumber (Num 2), zero, zero)
        (with_type "BOX" (new_Brush (BoxGeometry one one one) context_material)));
   updateMatrixWorld
     (with_type "SPHERE"
        (new_Brush (SphereGeometry (VNumber (Num (1 # 2))) 32 32)
           {| color := "ff0000" |}))].

(** [Move(a, 3, 0, 0)] after [a] was added, then a union with a sphere that
    is added too:
    [const a = Box(1, 1, 1); Add(a, "Base"); Move(a, 3, 0, 0);
     const s = Sphere(1); Add(Union(a, s), "Joined");] *)
Definition add_then_move : list stmt :=
  [SConst "a" (ECall (EVar "Box") [num 1; num 1; num 1]);
   SExpr (ECall (EVar "Add") [EVar "a"; EStr "Base"]);
   SExpr (ECall (EVar "Move") [EVar "a"; num 3; num 0; num 0]);
   SConst "s" (ECall (EVar "Sphere") [num 1]);
   SExpr (ECall (EVar "Add") [ECall (EVar "Union") [EVar "a"; EVar "s"]; EStr "Joined"])].

(** A clock that stands still. *)
Definition frozen (k : nat) : nat := 1000.

(** No character of [s] is an underscore. *)
Fixpoint no_underscore (s : string) : bool :=
  match s with
  | EmptyString => true
  | String c rest => negb (String.eqb (String c "") "_") && no_underscore rest
  end.

End Engine.

(** * The services ([geminiService.ts], [visualFeedbackService.ts]) and the
      captures of the viewer ([Viewer3D.tsx]) *)

Module Assistant.

(** ** Data URLs *)

(** [\w] in a regular expression without flags: a digit, a letter of the
    ASCII alphabet or the underscore. *)
Definition is_word (c : Ascii.ascii) : bool :=
  let n := Ascii.nat_of_ascii c in
  ((48 <=? n) && (n <=? 57) || (65 <=? n) && (n <=? 90) ||
   (97 <=? n) && (n <=? 122) || (n =? 95))%nat.

Fixpoint all_word (s : string) : bool :=
  match s with
  | EmptyString => true
  | String c rest => is_word c && all_word rest
  end.

(** What follows the prefix [p] in [s], when [s] starts with [p]. *)
Fixpoint after (p s : string) : option string :=
  match p, s with
  | EmptyString, _ => Some s
  | String a p', String b s' => if Ascii.eqb a b then after p' s' else None
  | String _ _, EmptyString => None
  end.

(** The longest run of word characters [s] starts with, and the rest. *)
Fixpoint word_run (s : string) : string * string :=
  match s with
  | EmptyString => (EmptyString, EmptyString)
  | String c rest =>
      if is_word c
      then let (w, r) := word_run rest in (String c w, r)
      else (EmptyString, s)
  end.

(** [base64.replace(/^data:image\/\w+;base64,/, "")].  The expression is
    anchored at the start of the text.  [\w+] takes the longest run of word
    characters; a shorter run would have to be followed by [;], and what
    follows a shorter run is a word character, so giving characters back never
    makes a match. *)
Definition strip_data_url (s : string) : string :=
  match after "data:image/" s with
  | Some rest =>
      let (kind, tail) := word_run rest in
      match kind, after ";base64," tail with
      | String _ _, Some payload => payload
      | _, _ => s
      end
  | None => s
  end.

(** ** The captures of the viewer *)

Record View := mkView { view : string; base64 : string }.

(** What [captureViews] of [SceneContent] returns: eight entries, the one at
    index [i] named after the angle and holding what [toDataURL('image/png')]
    gave for the render from there, [frame i].  The camera that the function
    moves and puts back is not represented. *)
Definition captureViews (frame : nat -> string) : list View :=
  List.map
    (fun i => {| view := "Orbit_Angle_" +:+ decimal (i * 45); base64 := frame i |})
    (seq 0 8).

(** ** Calls of the model *)

(** What a call of [generateContent] comes to, as the caller sees it: the
    call rejects; the response has no text; the text does not parse (or parses
    to [null], whose fields cannot be read); or it parses to a value, of which
    the caller reads the fields that the schema of its request declares. *)
Inductive Answer (A : Type) :=
| Rejected
| NoText
| Garbled
| Json (a : A).
Arguments Rejected {A}.
Arguments NoText {A}.
Arguments Garbled {A}.
Arguments Json {A} a.

Record InlineData := mkInlineData { mimeType : string; data : string }.

(** [imageParts] of [evaluateRender]. *)
Definition imageParts (images : list View) : list InlineData :=
  List.map
    (fun img => {| mimeType := "image/png"; data := strip_data_url (base64 img) |})
    images.

(** The fields of a verdict; each is [None] when the answer lacks it. *)
Record Feedback := mkFeedback {
  parsed_looksCorrect : option bool;
  parsed_critique : option string;
  parsed_suggestion : option string
}.

Record Analysis := mkAnalysis {
  looksCorrect : option bool;
  critique : string;
  suggestion : string
}.

(** [evaluateRender(originalPrompt, images)].  [images] is [None] when the
    caller passes [undefined]: [images.map] stands before the [try], so the
    call rejects ([None]).  [model] is the vision model, by the image parts it
    is sent. *)
Definition evaluateRender (images : option (list View))
    (model : list InlineData -> Answer Feedback) : option Analysis :=
  match images with
  | None => None
  | Some images =>
      Some
        match model (imageParts images) with
        | NoText =>
            {| looksCorrect := Some true;
               critique := "No response from vision model.";
               suggestion := "" |}
        | Json parsed =>
            {| looksCorrect := parsed_looksCorrect parsed;
               critique := Scene.or_string (parsed_critique parsed) "Verified";
               suggestion := Scene.or_string (parsed_suggestion parsed) "" |}
        | Rejected | Garbled =>
            {| looksCorrect := Some true;
               critique := "Visual check failed to run.";
               suggestion := "" |}
        end
  end.

(** The script a reply carries is kept as what [new Function] makes of its
    text: the statements it parses to, or nothing when it does not parse.  A
    reply without a [code] field runs as the text [undefined] does. *)
Inductive ScriptText :=
| Source (body : list Engine.stmt)
| Unparsable.

Record Reply := mkReply { code : ScriptText; explanation : string }.

(** [generateScript] and [fixScript] reject ([None]) when the call rejects,
    when the response has no text and when the text does not parse. *)
Definition generateScript (answer : Answer Reply) : option Reply :=
  match answer with
  | Json parsed => Some {| code := code parsed; explanation := explanation parsed |}
  | Rejected | NoText | Garbled => None
  end.

Definition fixScript (answer : Answer Reply) : option Reply :=
  match answer with
  | Json parsed =>
      Some {| code := code parsed; explanation := "Auto-Fix: " +:+ explanation parsed |}
  | Rejected | NoText | Garbled => None
  end.

(** A canvas that renders every view to the same PNG. *)
Definition png_frame (i : nat) : string := "data:image/png;base64,iVBORw0KGgo=".

End Assistant.

(** * The application ([App.tsx]) *)

Module App.
Import Engine.
Import Assistant.

(** Of the state of [App], the part the scene is drawn and exported from:
    [objects], [currentScript] and [isAiLoading].  The chat messages are left
    out; no statement that writes [objects] or [currentScript] reads them. *)
Record State := mkAppState {
  objects : list CADObject;
  currentScript : ScriptText;
  isAiLoading : bool
}.

(** [useState([])], [useState("")], [useState(false)] *)
Definition initial : State :=
  {| objects := []; currentScript := Source []; isAiLoading := false |}.

(** What the world answers during one call of [handleSendMessage]. *)
Record Turn := mkTurn {
  coder : Answer Reply;                      (* to [generateScript] *)
  clock : nat -> nat;                        (* [Date.now()] in the first run *)
  viewer : option (option (nat -> string));  (* [viewerRef.current], and in it
                                                [sceneRef.current] with the
                                                frames of its canvas *)
  vision : list InlineData -> Answer Feedback;  (* to [evaluateRender] *)
  fixer : Answer Reply;                      (* to [fixScript] *)
  clock' : nat -> nat                        (* [Date.now()] in the second run *)
}.

Section Page.

Variable color_set : value -> string -> string.
Variable evaluate : Brush -> Brush -> operation -> outcome Brush.
Variable globals : string -> option value.

(** [csgEngine.execute(code)] on the text of a script. *)
Definition run_script (now : nat -> nat) (fuel : nat) (text : ScriptText)
    : result (list CADObject) :=
  match text with
  | Source body => execute color_set now evaluate globals fuel body
  | Unparsable => Throw SyntaxError
  end.

(** [setObjects(objs); setCurrentScript(code)] *)
Definition show (objs : list CADObject) (text : ScriptText) (st : State) : State :=
  {| objects := objs; currentScript := text; isAiLoading := isAiLoading st |}.

Definition setIsAiLoading (b : bool) (st : State) : State :=
  {| objects := objects st; currentScript := currentScript st; isAiLoading := b |}.

(** [!analysis.looksCorrect] *)
Definition rejected_by (a : Analysis) : bool :=
  match looksCorrect a with
  | Some true => false
  | Some false | None => true
  end.

(** [handleSendMessage].  Every path through the [try] ends in the
    [finally]; a path through the [catch] adds a message and changes nothing
    else.  A run that does not come to its end leaves the call pending. *)
Definition handleSendMessage (fuel : nat) (t : Turn) (st : State) : result State :=
  let st := setIsAiLoading true st in
  match generateScript (coder t) with
  | None => Ok (setIsAiLoading false st)
  | Some reply =>
      match run_script (clock t) fuel (code reply) with
      | Unfinished => Unfinished
      | Throw _ => Ok (setIsAiLoading false st)
      | Ok executedObjects =>
          let st1 := show executedObjects (code reply) st in
          match viewer t with
          | Some handle =>
              if (0 <? length executedObjects)%nat then
                let views := captureViews <$> handle in
                match evaluateRender views (vision t) with
                | None => Ok (setIsAiLoading false st1)
                | Some analysis =>
                    if rejected_by analysis then
                      match fixScript (fixer t) with
                      | None => Ok (setIsAiLoading false st1)
                      | Some fixed =>
                          match run_script (clock' t) fuel (code fixed) with
                          | Unfinished => Unfinished
                          | Throw _ => Ok (setIsAiLoading false st1)
                          | Ok executedObjects =>
                              Ok (setIsAiLoading false
                                    (show executedObjects (code fixed) st1))
                          end
                      end
                    else Ok (setIsAiLoading false st1)
                end
              else Ok (setIsAiLoading false st1)
          | None => Ok (setIsAiLoading false st1)
          end
      end
  end.

(** [initialScript]:
    [const b = Box(1, 1, 1); Color(b, "#3b82f6"); Add(b, "Starter Cube");] *)
Definition initialScript : list stmt :=
  [SConst "b" (ECall (EVar "Box") [num 1; num 1; num 1]);
   SExpr (ECall (EVar "Color") [EVar "b"; EStr "#3b82f6"]);
   SExpr (ECall (EVar "Add") [EVar "b"; EStr "Starter Cube"])].

(** The effect that runs once when [App] is mounted. *)
Definition mount (now : nat -> nat) (fuel : nat) (st : State) : result State :=
  match run_script now fuel (Source initialScript) with
  | Ok objs => Ok (show objs (Source initialScript) st)
  | Throw _ => Ok st
  | Unfinished => Unfinished
  end.

(** The messages of a user, one call after the other: the chat takes no
    message while [isAiLoading] is set. *)
Fixpoint session (fuel : nat) (turns : list Turn) (st : State) : result State :=
  match turns with
  | [] => Ok st
  | t :: rest => bind (handleSendMessage fuel t st) (session fuel rest)
  end.

(** The objects shown are what the current script gave when it was run. *)
Definition in_sync (st : State) : Prop :=
  exists now fuel, run_script now fuel (currentScript st) = Ok (objects st).

End Page.

(** A turn in which the model writes the two cubes, the viewer is there and
    the check does not answer. *)
Definition quiet_turn : Turn :=
  {| coder := Json {| code := Source two_cubes; explanation := "Two cubes." |};
     clock := morning;
     viewer := Some (Some png_frame);
     vision := fun _ => Rejected;
     fixer := Json {| code := Source add_then_move; explanation := "Moved." |};
     clock' := evening |}.

(** The same turn with a check that finds fault. *)
Definition fixing_turn : Turn :=
  {| coder := coder quiet_turn; clock := clock quiet_turn; viewer := viewer quiet_turn;
     vision := fun _ => Json {| parsed_looksCorrect := Some false;
                                parsed_critique := Some "The cubes overlap.";
                                parsed_suggestion := None |};
     fixer := fixer quiet_turn; clock' := clock' quiet_turn |}.



End App.

(** * Properties of the script engine *)

Module EngineFacts.
Import Engine.

(** ** The builtins *)

(** C2, as the code has it.  A boolean operation whose first operand is
    [null] or absent returns its second operand, whatever that is, and leaves
    the brushes as they are; one whose second operand is [null] or absent
    returns the first when that is a brush, or any other value that counts as
    true.  With both operands [null] that makes the result [null]: no error
    is raised. *)
Theorem boolean_with_absent_operand
    (evaluate : Brush -> Brush -> operation -> outcome Brush)
    (f : list value -> Heap -> result (value * Heap)) (a b : value) (h : Heap) :
  In f [Union evaluate; Subtract evaluate; Intersect evaluate] ->
  (absent a = true -> f [a; b] h = Ok (b, h)) /\
  (absent b = true -> truthy a = true -> f [a; b] h = Ok (a, h)).
Proof.
  intros Hf.
  assert (Hcsg : exists op, f = csg evaluate op).
  { simpl in Hf. destruct Hf as [<-|[<-|[<-|[]]]]; eexists; reflexivity. }
  destruct Hcsg as [op ->]. unfold csg, arg. cbn [nth]. split.
  - intros Ha. by destruct a.
  - intros Hb Ha. rewrite Ha. by destruct b.
Qed.

Lemma boolean_with_absent_operand_witness :
  Subtract placed_as_first [VNull; VBrush 0] one_box = Ok (VBrush 0, one_box) /\
  Subtract placed_as_first [VBrush 0; VUndefined] one_box = Ok (VBrush 0, one_box).
Proof.
  split.
  - apply (boolean_with_absent_operand placed_as_first (Subtract placed_as_first)
             VNull (VBrush 0) one_box);
      [right; left; reflexivity | reflexivity].
  - apply (boolean_with_absent_operand placed_as_first (Subtract placed_as_first)
             (VBrush 0) VUndefined one_box);
      [right; left; reflexivity | reflexivity | reflexivity].
Defined.

(** C2 as stated fails where both operands are [null]: each operation
    returns [null]. *)
Lemma boolean_of_two_nulls_returns_null :
  Union placed_as_first [VNull; VNull] one_box = Ok (VNull, one_box) /\
  Subtract placed_as_first [VNull; VNull] one_box = Ok (VNull, one_box) /\
  Intersect placed_as_first [VNull; VNull] one_box = Ok (VNull, one_box).
Proof. repeat split. Qed.

(** C6, as the code has it.  A primitive constructor makes a brush from
    whatever it is given: each dimension is the argument, or the default when
    the argument is [undefined], and the new brush is added to the heap.  No
    argument makes it fail, and a script that adds a box of any three numbers
    returns the object with that geometry. *)
Theorem primitives_take_any_dimension (mat : MeshStandardMaterial)
    (args : list value) (h : Heap) :
  (exists b, Box mat args h = Ok (VBrush (length h), h ++ [b]) /\
     userData_type b = Some "BOX" /\
     geometry b = BoxGeometry (or_default (arg 0 args) one)
                    (or_default (arg 1 args) one) (or_default (arg 2 args) one)) /\
  (exists b, Sphere mat args h = Ok (VBrush (length h), h ++ [b]) /\
     userData_type b = Some "SPHERE" /\
     geometry b = SphereGeometry (or_default (arg 0 args) (VNumber (Num (1 # 2)))) 32 32) /\
  (exists b, Cylinder mat args h = Ok (VBrush (length h), h ++ [b]) /\
     userData_type b = Some "CYLINDER" /\
     geometry b = CylinderGeometry (or_default (arg 0 args) (VNumber (Num (1 # 2))))
                    (or_default (arg 1 args) (VNumber (Num (1 # 2))))
                    (or_default (arg 2 args) one) 32) /\
  (forall color_set now evaluate globals (w ht d : number) (more : nat),
     exists o,
       execute color_set now evaluate globals (4 + more)
         [SExpr (ECall (EVar "Add")
                   [ECall (EVar "Box") [ENum w; ENum ht; ENum d]; EStr "Solid"])]
       = Ok [o] /\
       geometryData o = BoxGeometry (VNumber w) (VNumber ht) (VNumber d)).
Proof.
  split; [|split; [|split]].
  1-3: eexists; (split; [reflexivity|]); split; reflexivity.
  intros color_set now evaluate globals w ht d more.
  match goal with |- context [execute ?c ?n ?ev ?g ?f ?code] =>
    remember (execute c n ev g f code) as r eqn:E end.
  vm_compute in E. subst r. eexists. split; reflexivity.
Qed.

(** C6 as stated fails: a box of width -1, height [NaN] and infinite depth
    is made, and so are a sphere and a cylinder of negative radius. *)
Lemma primitives_take_invalid_dimensions :
  (exists b, Box context_material [VNumber (Num (-1)); VNumber NaN; VNumber Infinity] []
             = Ok (VBrush 0, [b]) /\
     geometry b = BoxGeometry (VNumber (Num (-1))) (VNumber NaN) (VNumber Infinity)) /\
  (exists b, Sphere context_material [VNumber (Num (-1))] [] = Ok (VBrush 0, [b]) /\
     geometry b = SphereGeometry (VNumber (Num (-1))) 32 32) /\
  (exists b, Cylinder context_material
               [VNumber NegInfinity; VNumber (Num (-1)); VNumber NaN] []
             = Ok (VBrush 0, [b]) /\
     geometry b = CylinderGeometry (VNumber NegInfinity) (VNumber (Num (-1)))
                    (VNumber NaN) 32).
Proof. repeat split; eexists; split; reflexivity. Qed.

(** ** The names a script can use *)

Section Scope.

Variable color_set : value -> string -> string.
Variable now : nat -> nat.
Variable evaluate : Brush -> Brush -> operation -> outcome Brush.
Variable globals : string -> option value.

Lemma resolve_at_start (x : string) :
  resolve globals x [[]; body_scope; function_scope]
  = match builtin_named x with
    | Some f => Ok (VFunction f)
    | None =>
        if String.eqb x "ctx" then Ok VContext
        else if String.eqb x "arguments" then Ok VArguments
        else match globals x with
             | Some v => Ok v
             | None => Throw (ReferenceError x)
             end
    end.
Proof.
  unfold resolve, builtin_named, body_scope, function_scope, builtin_table.
  cbn [find scope_find List.map List.find fst snd fmap option_fmap option_map].
  repeat match goal with
         | |- context [String.eqb x ?s] =>
             destruct (String.eqb_spec x s); [subst; reflexivity|]
         end.
  reflexivity.
Qed.

Lemma builtin_named_Some (x : string) :
  is_Some (builtin_named x) <-> In x builtin_names.
Proof.
  unfold builtin_named, builtin_names, builtin_table.
  cbn [List.find List.map fst snd In].
  split.
  - intros [f Hf]. revert Hf.
    repeat match goal with
           | |- context [String.eqb x ?s] =>
               destruct (String.eqb_spec x s); [subst; tauto|]
           end.
    done.
  - intros H. repeat (destruct H as [<-|H]; [by eexists|]). done.
Qed.

(** C1, as the code has it.  Where the script starts, a name resolves to the
    builtin of that name, the parameter [ctx] to the context and [arguments]
    to the arguments of the call; any other name resolves to what the global
    scope of the page binds it to, and is an error only when that binds
    nothing.  A script made of the name alone runs to the end in the first
    case and throws in the second. *)
Theorem names_in_scope (x : string) :
  (in_scope globals x <->
   In x builtin_names \/ x = "ctx" \/ x = "arguments" \/ is_Some (globals x)) /\
  (forall f, builtin_named x = Some f ->
     resolve globals x [[]; body_scope; function_scope] = Ok (VFunction f)) /\
  (forall fuel,
     execute color_set now evaluate globals (S (S fuel)) [SExpr (EVar x)]
     = match resolve globals x [[]; body_scope; function_scope] with
       | Ok _ => Ok []
       | Throw e => Throw (LineError e)
       | Unfinished => Unfinished
       end).
Proof.
  split; [|split].
  - unfold in_scope. rewrite resolve_at_start, <- builtin_named_Some.
    destruct (builtin_named x) as [f|] eqn:Hb.
    { split; [intros _; left; by eexists|intros _; by eexists]. }
    destruct (String.eqb_spec x "ctx") as [->|Hc].
    { split; [intros _; right; by left|intros _; by eexists]. }
    destruct (String.eqb_spec x "arguments") as [->|Ha].
    { split; [intros _; right; right; by left|intros _; by eexists]. }
    destruct (globals x) as [v|] eqn:Hg.
    { split; [intros _; do 3 right; by eexists|intros _; by eexists]. }
    split.
    + by intros [v Hv].
    + intros [[f Hf]|[?|[?|[v Hv]]]]; congruence.
  - intros f Hf. by rewrite resolve_at_start, Hf.
  - intros fuel. unfold execute. simpl.
    change (resolve globals x [[]; body_scope; function_scope])
      with (resolve globals x [block_scope [SExpr (EVar x)]; body_scope; function_scope]).
    by destruct (resolve globals x _).
Qed.

End Scope.

(** C1 as stated fails: [ctx] is no builtin and is in scope, a script can
    read it, and a script can read a global of the page. *)
Lemma context_and_globals_in_scope :
  ~ In "ctx" builtin_names /\
  in_scope no_globals "ctx" /\
  execute keep_color morning placed_as_first no_globals 3 [SConst "leak" (EVar "ctx")] = Ok [] /\
  ~ In "origin" builtin_names /\
  in_scope page_globals "origin" /\
  execute keep_color morning placed_as_first page_globals 3 [SConst "leak" (EVar "origin")] = Ok [] /\
  execute keep_color morning placed_as_first page_globals 3 [SConst "leak" (EVar "nothing")]
  = Throw (LineError (ReferenceError "nothing")).
Proof.
  assert (Hnot : forall x, existsb (String.eqb x) builtin_names = false ->
                           ~ In x builtin_names).
  { intros x Hx Hin. apply not_true_iff_false in Hx. apply Hx, existsb_exists.
    exists x. split; [done|apply String.eqb_refl]. }
  repeat split; try (by apply Hnot); try (by eexists).
Qed.

(** ** Scenario B: two boxes under one name *)

(** C4, as the code has it.  The script that makes two boxes and adds each
    under the name "Cube" returns two objects, both named "Cube": [Add] stores
    the name it is given.  The names "Cube" and "Cube1" are those of two
    objects created under that name by CREATE commands of the scene manager,
    which the objects of a script do not pass through. *)
Theorem two_cubes_named_alike
    (color_set : value -> string -> string) (now : nat -> nat)
    (evaluate : Brush -> Brush -> operation -> outcome Brush)
    (globals : string -> option value) (more : nat) :
  (exists o1 o2,
     execute color_set now evaluate globals (steps two_cubes + more) two_cubes = Ok [o1; o2] /\
     name o1 = VString "Cube" /\ name o2 = VString "Cube") /\
  List.map Scene.name
    (Scene.getObjects
       (Scene.processCommands Scene.ids
          [Scene.create None "Cube"; Scene.create None "Cube"] Scene.new))
  = ["Cube"; "Cube1"].
Proof.
  split.
  - remember (execute color_set now evaluate globals (steps two_cubes + more) two_cubes)
      as r eqn:E.
    vm_compute in E. subst r. eexists _, _. split; [reflexivity|]. by split.
  - vm_compute. reflexivity.
Qed.

(** C4 as stated fails: the second object is named "Cube", not "Cube1". *)
Lemma two_cubes_second_name :
  (exists l, execute keep_color morning placed_as_first no_globals 6 two_cubes = Ok l /\
     List.map name l = [VString "Cube"; VString "Cube"]) /\
  ~ (exists l, execute keep_color morning placed_as_first no_globals 6 two_cubes = Ok l /\
       List.map name l = [VString "Cube"; VString "Cube1"]).
Proof.
  remember (execute keep_color morning placed_as_first no_globals 6 two_cubes) as r eqn:E.
  vm_compute in E. subst r. split.
  - eexists. split; reflexivity.
  - intros (l & Hl & Hn). injection Hl as <-. discriminate Hn.
Qed.

(** ** Steps *)

Section Steps.

Variable color_set : value -> string -> string.
Variable now : nat -> nat.
Variable evaluate : Brush -> Brush -> operation -> outcome Brush.
Variable globals : string -> option value.

Abbreviation eval := (eval color_set now evaluate globals).
Abbreviation exec := (exec color_set now evaluate globals).
Abbreviation execute := (execute color_set now evaluate globals).
















End Steps.



(** ** Two runs of one script *)

Section TwoRuns.

Variable color_set : value -> string -> string.
Variable evaluate : Brush -> Brush -> operation -> outcome Brush.
Variable globals : string -> option value.
Variables now1 now2 : nat -> nat.

Abbreviation related := (same_run now1 now2).
Abbreviation related_values := (same_value now1 now2).

Lemma alike_bind {A B : Type} (R : A -> A -> Prop) (R' : B -> B -> Prop)
    (r1 r2 : result A) (k1 k2 : A -> result B) :
  alike R r1 r2 ->
  (forall a1 a2, R a1 a2 -> alike R' (k1 a1) (k2 a2)) ->
  alike R' (bind r1 k1) (bind r2 k2).
Proof. destruct r1, r2; simpl; try done. intros H Hk. by apply Hk. Qed.

Lemma stamps_S (now : nat -> nat) (n : nat) :
  stamps now (S n)
  = stamps now n ++ ["obj_" +:+ decimal n +:+ "_" +:+ decimal (now n)].
Proof. unfold stamps. by rewrite seq_S, map_app. Qed.

Lemma on_heap_related (f : list value -> Heap -> result (value * Heap))
    (args : list value) (st1 st2 : State) :
  related st1 st2 ->
  alike related_values (on_heap f args st1) (on_heap f args st2).
Proof.
  intros ((Hh & Hm) & Hs & H1 & H2). unfold on_heap. rewrite Hh, Hm.
  destruct (f args (heap st2)) as [[v h]| |]; simpl; try done.
Qed.

Lemma Color_related (args : list value) (st1 st2 : State) :
  related st1 st2 ->
  alike related_values (Color color_set args st1) (Color color_set args st2).
Proof.
  intros Hrel. unfold Color.
  destruct (negb (truthy (arg 0 args))); [done|].
  destruct (arg 0 args); try (by apply on_heap_related).
  destruct Hrel as ((Hh & Hm) & Hs & H1 & H2). simpl. by rewrite Hm.
Qed.

Lemma Add_related (args : list value) (st1 st2 : State) :
  related st1 st2 ->
  alike related_values (Add now1 args st1) (Add now2 args st2).
Proof.
  intros ((Hh & Hm) & Hs & H1 & H2). unfold Add. rewrite Hh.
  destruct (negb (truthy (arg 0 args))); [by repeat split|].
  destruct (arg 0 args); simpl; try done.
  destruct (heap st2 !! ref) as [b|]; simpl; [|done].
  assert (Hlen : length (objects st1) = length (objects st2)).
  { apply (f_equal (@length _)) in Hs. by rewrite !length_map in Hs. }
  split; [done|]. repeat split; simpl; try done.
  - rewrite !map_app, Hs. done.
  - rewrite map_app, length_app, H1. simpl.
    replace (length (objects st1) + 1) with (S (length (objects st1))) by lia.
    by rewrite stamps_S.
  - rewrite map_app, length_app, H2. simpl.
    replace (length (objects st2) + 1) with (S (length (objects st2))) by lia.
    by rewrite stamps_S.
Qed.

Lemma call_related (f : value) (args : list value) (st1 st2 : State) :
  related st1 st2 ->
  alike related_values (call color_set now1 evaluate f args st1) (call color_set now2 evaluate f args st2).
Proof.
  intros Hrel. destruct f; try done.
  assert (Hm : ctx_material st1 = ctx_material st2) by apply Hrel.
  destruct f; cbn [call apply_builtin]; rewrite ?Hm;
    try (by apply on_heap_related).
  - by apply Color_related.
  - by apply Add_related.
Qed.

Lemma eval_list_related (ev1 ev2 : expr -> State -> result (value * State))
    (args : list expr) :
  (forall a st1 st2, related st1 st2 -> alike related_values (ev1 a st1) (ev2 a st2)) ->
  forall st1 st2,
    related st1 st2 ->
    alike (fun r1 r2 : list value * State => fst r1 = fst r2 /\ related (snd r1) (snd r2))
      (eval_list ev1 args st1) (eval_list ev2 args st2).
Proof.
  intros Hev. induction args as [|a rest IH]; intros st1 st2 Hrel; simpl; [done|].
  eapply alike_bind; [by apply Hev|].
  intros [v1 s1] [v2 s2] [Hv Hs]; simpl in *. subst v2.
  eapply alike_bind; [by apply IH|].
  intros [vs1 t1] [vs2 t2] [Hvs Ht]; simpl in *. by subst vs2.
Qed.

Lemma eval_related (fuel : nat) :
  forall e env st1 st2,
    related st1 st2 ->
    alike related_values (eval color_set now1 evaluate globals fuel e env st1)
      (eval color_set now2 evaluate globals fuel e env st2).
Proof.
  induction fuel as [|fuel IH]; intros e env st1 st2 Hrel; [done|].
  destruct e; simpl; try done.
  - by destruct (resolve globals x env).
  - eapply alike_bind; [by apply IH|].
    intros [f1 s1] [f2 s2] [Hf Hs]; simpl in *. subst f2.
    eapply alike_bind.
    + apply eval_list_related; [|done]. intros a t1 t2 Ht. by apply IH.
    + intros [vs1 t1] [vs2 t2] [Hvs Ht]; simpl in *. subst vs2.
      by apply call_related.
Qed.

Lemma exec_related (fuel : nat) :
  forall body env st1 st2,
    related st1 st2 ->
    alike related (exec color_set now1 evaluate globals fuel body env st1)
      (exec color_set now2 evaluate globals fuel body env st2).
Proof.
  induction fuel as [|fuel IH]; intros body env st1 st2 Hrel.
  - by destruct body.
  - destruct body as [|s rest]; [done|].
    destruct s as [x e|e|cond inner]; cbn [Engine.exec].
    + eapply alike_bind; [by apply eval_related|].
      intros [v1 s1] [v2 s2] [Hv Hs]; simpl in *. subst v2. by apply IH.
    + eapply alike_bind; [by apply eval_related|].
      intros [v1 s1] [v2 s2] [Hv Hs]; simpl in *. by apply IH.
    + eapply alike_bind; [by apply eval_related|].
      intros [v1 s1] [v2 s2] [Hv Hs]; simpl in *. subst v2.
      destruct (truthy v1); [|by apply IH].
      eapply alike_bind; [by apply IH|].
      intros t1 t2 Ht. by apply IH.
Qed.




End TwoRuns.


End EngineFacts.

(** * Properties of the scene manager *)

Module SceneFacts.
Import Scene.

(** ** Decimal notation and the association list *)

Lemma decimal_inj (a b : nat) : decimal a = decimal b -> a = b.
Proof.
  unfold decimal. intros H.
  apply (f_equal NilEmpty.uint_of_string) in H.
  rewrite !NilEmpty.usu in H.
  apply Unsigned.to_uint_inj. congruence.
Qed.

Lemma append_inj_r (p x y : string) : p +:+ x = p +:+ y -> x = y.
Proof.
  induction p as [|c p IH]; intros H; [done|].
  change (String c (p +:+ x) = String c (p +:+ y)) in H.
  apply IH. congruence.
Qed.

Lemma has_In (taken : list string) (x : string) : has taken x = true <-> In x taken.
Proof.
  unfold has. rewrite existsb_exists. split.
  - intros (y & Hy & E). apply String.eqb_eq in E. by subst.
  - intros H. exists x. split; [done|]. apply String.eqb_refl.
Qed.

Lemma map_get_set_eq (k : string) (v : CADObject) (m : ObjectMap) :
  map_get k (map_set k v m) = Some v.
Proof.
  induction m as [|[k' v'] m IH]; simpl.
  - by rewrite String.eqb_refl.
  - destruct (String.eqb_spec k k') as [->|Hne]; simpl.
    + by rewrite String.eqb_refl.
    + destruct (String.eqb_spec k k'); [done|apply IH].
Qed.

Lemma map_get_set_ne (k k' : string) (v : CADObject) (m : ObjectMap) :
  k <> k' -> map_get k' (map_set k v m) = map_get k' m.
Proof.
  intros Hne. induction m as [|[k0 v0] m IH]; simpl.
  - destruct (String.eqb_spec k' k); [congruence|done].
  - destruct (String.eqb_spec k k0) as [->|H0]; simpl.
    + destruct (String.eqb_spec k' k0); [congruence|done].
    + destruct (String.eqb_spec k' k0); [done|apply IH].
Qed.

Lemma map_set_present (k : string) (v : CADObject) (m : ObjectMap) :
  map_has k m = true ->
  map_keys (map_set k v m) = map_keys m /\ length (map_set k v m) = length m.
Proof.
  unfold map_has. induction m as [|[k0 v0] m IH]; simpl; [done|].
  destruct (String.eqb_spec k k0) as [->|H0]; simpl; [done|].
  intros H. destruct (IH H) as [-> ->]. done.
Qed.

(** ** [getUniqueName] leaves its loop *)

Lemma candidates_bounded (taken : list string) (baseName : string) (n : nat) :
  (forall c, 1 <= c <= n -> In (baseName +:+ decimal c) taken) -> n <= length taken.
Proof.
  intros Hall.
  pose (f := fun c : nat => baseName +:+ decimal c).
  assert (Hinj : Inj (=) (=) f).
  { intros a b E. apply decimal_inj, (append_inj_r baseName), E. }
  assert (Hnd : NoDup (f <$> seq 1 n)) by (apply NoDup_fmap_2; [done|apply NoDup_seq]).
  assert (Hsub : f <$> seq 1 n ⊆+ taken).
  { apply NoDup_submseteq; [done|]. intros x Hx.
    apply list_elem_of_fmap in Hx. destruct Hx as (c & -> & Hc).
    apply elem_of_seq in Hc. apply list_elem_of_In, Hall. lia. }
  apply submseteq_length in Hsub.
  by rewrite length_fmap, length_seq in Hsub.
Qed.

Lemma count_up_spec (taken : list string) (baseName : string) (turns counter : nat) :
  1 <= counter ->
  turns + (counter - 1) = length taken ->
  (forall c, 1 <= c < counter -> has taken (baseName +:+ decimal c) = true) ->
  let r := count_up taken baseName turns counter in
  counter <= r /\
  has taken (baseName +:+ decimal r) = false /\
  (forall c, 1 <= c < r -> has taken (baseName +:+ decimal c) = true).
Proof.
  revert counter. induction turns as [|turns IH]; intros counter Hpos Hlen Hbelow; simpl.
  - split; [done|]. split; [|done].
    destruct (has taken (baseName +:+ decimal counter)) eqn:Hc; [|done].
    assert (counter <= length taken); [|lia].
    apply (candidates_bounded taken baseName). intros c Hr. apply has_In.
    destruct (decide (c = counter)) as [->|]; [done|]. apply Hbelow. lia.
  - destruct (has taken (baseName +:+ decimal counter)) eqn:Hc.
    + destruct (IH (S counter)) as (Hle & Hfree & Hless); [lia|lia| |].
      * intros c Hr. destruct (decide (c = counter)) as [->|]; [done|].
        apply Hbelow. lia.
      * split; [lia|]. done.
    + done.
Qed.

(** The name [getUniqueName] returns is none of the names it looked at. *)
Lemma getUniqueName_not_taken (baseName : string) (excludeId : option string)
    (s : SceneManager) :
  ~ In (getUniqueName baseName excludeId s) (taken_names excludeId (objects s)).
Proof.
  unfold getUniqueName. set (taken := taken_names excludeId (objects s)).
  rewrite <- has_In. destruct (has taken baseName) eqn:Hb; simpl.
  - destruct (count_up_spec taken baseName (length taken) 1) as (_ & Hfree & _);
      [lia|lia|intros; lia|]. by rewrite Hfree.
  - by rewrite Hb.
Qed.

(** X2.  The name [getUniqueName] returns is one no other object has: the
    base name when that is free, or else the base name followed by the
    smallest positive integer that makes a free name. *)
Theorem getUniqueName_spec (baseName : string) (excludeId : option string)
    (s : SceneManager) :
  let taken := taken_names excludeId (objects s) in
  ~ In (getUniqueName baseName excludeId s) taken /\
  (getUniqueName baseName excludeId s = baseName \/
   exists r, 1 <= r /\
     getUniqueName baseName excludeId s = baseName +:+ decimal r /\
     In baseName taken /\
     forall c, 1 <= c < r -> In (baseName +:+ decimal c) taken).
Proof.
  intros taken. unfold getUniqueName. fold taken.
  destruct (has taken baseName) eqn:Hb; simpl.
  - destruct (count_up_spec taken baseName (length taken) 1) as (Hle & Hfree & Hless);
      [lia|lia|intros; lia|].
    split.
    + rewrite <- has_In. by rewrite Hfree.
    + right. eexists. split; [exact Hle|]. split; [done|]. split.
      * by apply has_In.
      * intros c Hc. apply has_In, Hless, Hc.
  - split; [|by left]. rewrite <- has_In. by rewrite Hb.
Qed.

(** ** The two stacks *)

Lemma saveState_history (s : SceneManager) :
  length (history s) <= maxHistory ->
  history (saveState s)
  = drop (length (history s ++ [exportScene s]) - maxHistory)
      (history s ++ [exportScene s]).
Proof.
  intros Hlen. unfold saveState; simpl. rewrite length_app; simpl.
  destruct (Nat.ltb_spec maxHistory (length (history s) + 1)) as [Hlt|Hge].
  - replace (length (history s) + 1 - maxHistory) with 1 by lia.
    by destruct (history s ++ [exportScene s]).
  - replace (length (history s) + 1 - maxHistory) with 0 by lia. done.
Qed.

Lemma saveState_bounded (s : SceneManager) :
  length (history s) <= maxHistory -> bounded (saveState s).
Proof.
  intros Hlen. unfold bounded. rewrite saveState_history by done.
  rewrite length_drop, length_app. simpl. lia.
Qed.

Lemma loadScene_stacks (json : json_text) (s : SceneManager) :
  history (loadScene json s) = history s /\ redoStack (loadScene json s) = redoStack s.
Proof. by destruct json. Qed.

Lemma undo_snoc (s : SceneManager) (h : list json_text) (x : json_text) :
  history s = h ++ [x] ->
  undo s = loadScene x {| objects := objects s; history := h;
                          redoStack := redoStack s ++ [exportScene s] |}.
Proof. intros E. unfold undo. by rewrite E, last_snoc, removelast_last. Qed.

Lemma undo_bounded (s : SceneManager) : bounded s -> bounded (undo s).
Proof.
  unfold bounded. intros Hb. destruct (last (history s)) as [x|] eqn:E.
  - apply last_Some in E as [h E]. rewrite (undo_snoc s h x E).
    destruct (loadScene_stacks x {| objects := objects s; history := h;
      redoStack := redoStack s ++ [exportScene s] |}) as [-> ->]. simpl.
    rewrite E in Hb. rewrite !length_app in *. simpl in *. lia.
  - unfold undo. by rewrite E.
Qed.

Lemma redo_bounded (s : SceneManager) : bounded s -> bounded (redo s).
Proof.
  unfold bounded, redo. intros Hb. destruct (last (redoStack s)) as [x|] eqn:E; [|done].
  apply last_Some in E as [r E].
  match goal with |- context [loadScene x ?t] =>
    destruct (loadScene_stacks x t) as [-> ->] end. simpl.
  rewrite E, removelast_last. rewrite E in Hb.
  rewrite !length_app in *. simpl in *. lia.
Qed.

Lemma bounded_history (s : SceneManager) : bounded s -> length (history s) <= maxHistory.
Proof. unfold bounded. lia. Qed.

Lemma renameObject_bounded (i n : string) (s : SceneManager) :
  bounded s -> bounded (renameObject i n s).
Proof.
  intros Hb. unfold renameObject. destruct (map_get i (objects s)); [|done].
  destruct (String.eqb _ _); [done|].
  apply (saveState_bounded s), bounded_history, Hb.
Qed.

Lemma duplicateObject_bounded (newId i : string) (s : SceneManager) :
  bounded s -> bounded (duplicateObject newId i s).
Proof.
  intros Hb. unfold duplicateObject. destruct (map_get i (objects s)); [|done].
  destruct (position c) as [[p0 p1] p2].
  apply (saveState_bounded s), bounded_history, Hb.
Qed.

Lemma processCommand_bounded (newId : string) (cmd : AICommand) (s : SceneManager) :
  bounded s -> bounded (processCommand newId cmd s).
Proof.
  intros Hb. unfold processCommand.
  destruct (action cmd); try done.
  - by destruct (objectData cmd).
  - destruct (or_else _ _); [|done]. destruct (truthy _); [|done].
    by destruct (map_get _ _).
  - destruct (or_else _ _); [|done]. by destruct (truthy _).
  - by apply undo_bounded.
  - by apply redo_bounded.
Qed.

Lemma forEach_bounded (newId : nat -> string) (commands : list AICommand) :
  forall k s, bounded s -> bounded (forEach newId k commands s).
Proof.
  induction commands as [|cmd rest IH]; intros k s Hb; simpl; [done|].
  by apply IH, processCommand_bounded.
Qed.

Lemma apply_op_bounded (o : operation) (s : SceneManager) :
  bounded s -> bounded (apply_op o s).
Proof.
  intros Hb. destruct o; simpl.
  - by apply renameObject_bounded.
  - by apply duplicateObject_bounded.
  - unfold processCommands. apply forEach_bounded.
    destruct (existsb modifies commands); [|done].
    apply saveState_bounded, bounded_history, Hb.
  - by apply undo_bounded.
  - by apply redo_bounded.
  - unfold bounded. by destruct (loadScene_stacks json s) as [-> ->].
Qed.

Lemma run_bounded (ops : list operation) :
  forall s, bounded s -> bounded (run ops s).
Proof.
  unfold run. induction ops as [|o ops IH]; intros s Hb; simpl; [done|].
  by apply IH, apply_op_bounded.
Qed.

Lemma new_bounded : bounded new.
Proof. unfold bounded, maxHistory. simpl. lia. Qed.

(** A batch without UNDO and REDO leaves both stacks as [saveState] made them. *)
Lemma forEach_stacks (newId : nat -> string) (commands : list AICommand) :
  existsb history_command commands = false ->
  forall k s,
    history (forEach newId k commands s) = history s /\
    redoStack (forEach newId k commands s) = redoStack s.
Proof.
  induction commands as [|cmd rest IH]; intros Hno k s; simpl; [done|].
  simpl in Hno. apply orb_false_iff in Hno as [Hcmd Hrest].
  destruct (IH Hrest (S k) (processCommand (newId k) cmd s)) as [-> ->].
  unfold processCommand, history_command in *.
  destruct (action cmd); try done.
  - by destruct (objectData cmd).
  - destruct (or_else _ _); [|done]. destruct (truthy _); [|done].
    by destruct (map_get _ _).
  - destruct (or_else _ _); [|done]. by destruct (truthy _).
Qed.

Lemma mutating_saves (o : operation) (s : SceneManager) :
  mutating o s = true ->
  history (apply_op o s) = history (saveState s) /\ redoStack (apply_op o s) = [].
Proof.
  destruct o; simpl; try done.
  - unfold renameObject. destruct (map_get i (objects s)); [|done].
    by destruct (String.eqb _ _).
  - unfold duplicateObject, map_has. destruct (map_get i (objects s)); [|done].
    by destruct (position c) as [[p0 p1] p2].
  - intros H. apply andb_true_iff in H as [Hm Hh]. apply negb_true_iff in Hh.
    unfold processCommands. rewrite Hm.
    by destruct (forEach_stacks newId commands Hh 0 (saveState s)) as [-> ->].
Qed.

Lemma run_history (ops : list operation) :
  forall s,
    length (history s) <= maxHistory ->
    all_mutating ops s = true ->
    history (run ops s)
    = drop (length (history s ++ List.map exportScene (pre_states ops s)) - maxHistory)
        (history s ++ List.map exportScene (pre_states ops s)).
Proof.
  unfold run. induction ops as [|o ops IH]; intros s Hlen Hall; simpl.
  - rewrite app_nil_r. replace (length (history s) - maxHistory) with 0 by lia. done.
  - simpl in Hall. apply andb_true_iff in Hall as [Ho Hall].
    destruct (mutating_saves o s Ho) as [Hh _].
    rewrite saveState_history in Hh by done.
    assert (Hlen' : length (history (apply_op o s)) <= maxHistory).
    { rewrite Hh, length_drop, length_app. simpl. lia. }
    rewrite (IH _ Hlen' Hall), Hh.
    set (k := length (history s ++ [exportScene s]) - maxHistory).
    set (rest := List.map exportScene (pre_states ops (apply_op o s))).
    replace (history s ++ exportScene s :: rest)
      with ((history s ++ [exportScene s]) ++ rest) by (by rewrite <- app_assoc).
    rewrite <- (drop_app_le _ rest k) by (subst k; lia).
    rewrite drop_drop. f_equal.
    rewrite length_drop. subst k. rewrite !length_app. simpl. lia.
Qed.

(** Undoing as many times as there are snapshots above [h] leaves [h], and
    the document of the oldest of them. *)
Lemma undo_iter (l : list SceneManager) :
  forall s h x,
    history s = h ++ List.map exportScene (x :: l) ->
    history (Nat.iter (S (length l)) undo s) = h /\
    objects (Nat.iter (S (length l)) undo s) = objects (loadScene (exportScene x) new).
Proof.
  induction l as [|y l IH] using rev_ind; intros s h x E.
  - simpl in *. by rewrite (undo_snoc s h _ E).
  - rewrite length_app. simpl. replace (length l + 1) with (S (length l)) by lia.
    rewrite Nat.iter_succ_r. apply IH.
    simpl in E. rewrite map_app in E. simpl in E. simpl.
    replace (h ++ exportScene x :: List.map exportScene l ++ [exportScene y])
      with ((h ++ exportScene x :: List.map exportScene l) ++ [exportScene y]) in E
      by (by rewrite <- app_assoc).
    by rewrite (undo_snoc s _ _ E).
Qed.

(** C8.  The undo stack never holds more than 20 snapshots.  [saveState]
    pushes the snapshot of the current document, drops the oldest entry when
    the stack was full, and empties the redo stack; every mutating operation
    starts with it.  After 21 mutating operations the stack holds the 20
    snapshots taken before the operations 2 to 21: undoing 20 times reaches
    the document as it was after the first operation, and a further [undo]
    does nothing, so the state before the first operation is out of reach. *)
Theorem history_is_bounded_fifo :
  (forall ops, length (history (run ops new)) <= maxHistory) /\
  (forall s,
     redoStack (saveState s) = [] /\
     last (history (saveState s)) = Some (exportScene s) /\
     (length (history s) <= maxHistory ->
      history (saveState s)
      = (if decide (length (history s) = maxHistory)
         then tl (history s) else history s) ++ [exportScene s])) /\
  (forall o s, mutating o s = true ->
     history (apply_op o s) = history (saveState s) /\
     redoStack (apply_op o s) = []) /\
  (forall pre first rest,
     let s0 := run pre new in
     let s1 := apply_op first s0 in
     let final := run rest s1 in
     length rest = maxHistory ->
     all_mutating (first :: rest) s0 = true ->
     history final = List.map exportScene (pre_states rest s1) /\
     let oldest := Nat.iter maxHistory undo final in
     history oldest = [] /\
     objects oldest = objects (loadScene (exportScene s1) new) /\
     undo oldest = oldest).
Proof.
  split; [|split; [|split]].
  - intros ops. apply bounded_history, run_bounded, new_bounded.
  - intros s. split; [done|]. split.
    + unfold saveState; simpl. rewrite length_app; simpl.
      destruct (Nat.ltb_spec maxHistory (length (history s) + 1)) as [Hlt|Hge];
        [|apply last_snoc].
      destruct (history s) as [|x h]; [unfold maxHistory in Hlt; simpl in Hlt; lia|].
      simpl. apply last_snoc.
    + intros Hlen. unfold saveState; simpl. rewrite length_app; simpl.
      destruct (Nat.ltb_spec maxHistory (length (history s) + 1)) as [Hlt|Hge];
        destruct (decide (length (history s) = maxHistory)) as [Heq|Hne];
        try lia; try done.
      destruct (history s); [by compute in Heq|done].
  - apply mutating_saves.
  - intros pre first rest s0 s1 final Hrest Hall.
    assert (Hb0 : bounded s0) by apply run_bounded, new_bounded.
    assert (Hfinal : history final = List.map exportScene (pre_states rest s1)).
    { assert (Hrun : history (run (first :: rest) s0)
                     = drop (length (history s0 ++ List.map exportScene
                                       (pre_states (first :: rest) s0)) - maxHistory)
                         (history s0 ++ List.map exportScene
                            (pre_states (first :: rest) s0))).
      { apply run_history; [by apply bounded_history|done]. }
      change (run (first :: rest) s0) with final in Hrun. rewrite Hrun. simpl.
      fold s1.
      assert (Hn : length (pre_states rest s1) = length rest).
      { clear. generalize s1. induction rest as [|o r IH]; intros s; simpl; [done|].
        by rewrite IH. }
      replace (history s0 ++ exportScene s0 :: List.map exportScene (pre_states rest s1))
        with ((history s0 ++ [exportScene s0]) ++ List.map exportScene (pre_states rest s1))
        by (by rewrite <- app_assoc).
      rewrite length_app, length_map, Hn, Hrest.
      replace (length (history s0 ++ [exportScene s0]) + maxHistory - maxHistory)
        with (length (history s0 ++ [exportScene s0])) by lia.
      apply drop_app_length. }
    split; [done|]. intros oldest.
    destruct rest as [|second rest']; [by compute in Hrest|].
    simpl in Hfinal.
    destruct (undo_iter (pre_states rest' (apply_op second s1)) final [] s1)
      as [Hh Ho].
    { by rewrite Hfinal. }
    assert (Hk : S (length (pre_states rest' (apply_op second s1))) = maxHistory).
    { rewrite <- Hrest. simpl. f_equal. clear. generalize (apply_op second s1).
      induction rest' as [|o r IH]; intros s; simpl; [done|]. by rewrite IH. }
    rewrite Hk in Hh, Ho. fold oldest in Hh, Ho.
    split; [done|]. split; [done|]. unfold undo. by rewrite Hh.
Qed.

Lemma history_is_bounded_fifo_witness :
  let s1 := apply_op first_batch new in
  let final := run twenty_batches s1 in
  (history final = List.map exportScene (pre_states twenty_batches s1) /\
   let oldest := Nat.iter maxHistory undo final in
   history oldest = [] /\
   objects oldest = objects (loadScene (exportScene s1) new) /\
   undo oldest = oldest) /\
  List.map name (getObjects (Nat.iter maxHistory undo final)) = ["First"] /\
  getObjects new = [].
Proof.
  split.
  - apply (proj2 (proj2 (proj2 history_is_bounded_fifo)) [] first_batch twenty_batches).
    + reflexivity.
    + vm_compute. reflexivity.
  - vm_compute. split; reflexivity.
Defined.

(** ** CREATE with an identifier that is in use *)

Lemma requested_id_used (newId : string) (cmd : AICommand) (d : Partial.t) (i : string) :
  objectData cmd = Some d ->
  requested_id cmd = Some i ->
  or_string (Partial.id d)
    (or_string (or_else (targetId cmd) (Partial.id d)) newId) = i.
Proof.
  unfold requested_id. intros -> H. revert H.
  unfold truthy, or_else, or_string. simpl.
  destruct (Partial.id d) as [x|], (targetId cmd) as [t|]; simpl;
    repeat (match goal with
            | |- context [String.eqb ?a ""] => destruct (String.eqb_spec a "")
            end; simpl);
    congruence.
Qed.

(** C10.  A CREATE command that asks for the identifier of an object of the
    document replaces that object by the one it builds: the new object is
    found under the identifier, no key is added (the fresh identifier is not
    used), the other objects and the two stacks are as before.  It holds for
    the command wherever it stands in a batch, and so for the batch made of
    it alone. *)
Theorem create_replaces_existing
    (newId : string) (cmd : AICommand) (d : Partial.t) (i : string)
    (old : CADObject) (s : SceneManager) :
  action cmd = CREATE ->
  objectData cmd = Some d ->
  requested_id cmd = Some i ->
  getObject i s = Some old ->
  let built :=
    newObj i (getUniqueName (or_string (Partial.name d) "Object") None s) d in
  let s' := processCommand newId cmd s in
  let s'' := processCommands (fun _ => newId) [cmd] s in
  (getObject i s' = Some built /\
   map_keys (objects s') = map_keys (objects s) /\
   (forall k, k <> i -> getObject k s' = getObject k s) /\
   history s' = history s /\ redoStack s' = redoStack s) /\
  (getObject i s'' = Some built /\
   map_keys (objects s'') = map_keys (objects s) /\
   (forall k, k <> i -> getObject k s'' = getObject k s)).
Proof.
  intros Hact Hd Hreq Hold built s' s''.
  assert (Hs' : s' = set_objects (map_set i built (objects s)) s).
  { subst s'. unfold processCommand. cbv zeta. rewrite Hact, Hd. simpl.
    by rewrite (requested_id_used newId cmd d i Hd Hreq). }
  assert (Hs'' : s'' = set_objects (map_set i built (objects s)) (saveState s)).
  { subst s''. unfold processCommands. simpl. unfold modifies. rewrite Hact. simpl.
    unfold processCommand. cbv zeta. rewrite Hact, Hd. simpl.
    by rewrite (requested_id_used newId cmd d i Hd Hreq). }
  assert (Hhas : map_has i (objects s) = true).
  { unfold map_has. unfold getObject in Hold. by rewrite Hold. }
  rewrite Hs', Hs''. unfold getObject. simpl.
  rewrite map_get_set_eq. destruct (map_set_present i built (objects s) Hhas) as [-> _].
  repeat split; try done; intros k Hk; by apply map_get_set_ne.
Qed.

Lemma create_replaces_existing_witness :
  let s := one_cube in
  let cmd := create (Some "a") "Cube" in
  let d := Partial.mk (Some "a") (Some "Cube") None None None None None None None
             None None in
  let built :=
    newObj "a" (getUniqueName (or_string (Partial.name d) "Object") None s) d in
  let s' := processCommand "fresh" cmd s in
  let s'' := processCommands (fun _ => "fresh") [cmd] s in
  (getObject "a" s' = Some built /\
   map_keys (objects s') = map_keys (objects s) /\
   (forall k, k <> "a" -> getObject k s' = getObject k s) /\
   history s' = history s /\ redoStack s' = redoStack s) /\
  (getObject "a" s'' = Some built /\
   map_keys (objects s'') = map_keys (objects s) /\
   (forall k, k <> "a" -> getObject k s'' = getObject k s)).
Proof.
  intros s cmd d.
  apply (create_replaces_existing "fresh" cmd d "a" (newObj "a" "Cube" d) s);
    reflexivity.
Defined.

(** ** Export and import *)

Lemma map_get_None (k : string) (m : ObjectMap) :
  map_get k m = None <-> k ∉ map_keys m.
Proof.
  induction m as [|[k' v] m IH]; simpl.
  - split; [intros _; apply not_elem_of_nil|done].
  - rewrite not_elem_of_cons. destruct (String.eqb_spec k k') as [->|Hne].
    + split; [done|]. by intros [? _].
    + rewrite IH. split; [intros H; by split|by intros [_ H]].
Qed.

Lemma map_set_keys (k : string) (v : CADObject) (m : ObjectMap) :
  map_keys (map_set k v m)
  = if map_has k m then map_keys m else map_keys m ++ [k].
Proof.
  unfold map_has. induction m as [|[k' v'] m IH]; simpl; [done|].
  destruct (String.eqb_spec k k') as [->|Hne]; simpl; [done|].
  rewrite IH. by destruct (map_get k m).
Qed.

Lemma map_set_new (k : string) (v : CADObject) (m : ObjectMap) :
  k ∉ map_keys m -> map_set k v m = m ++ [(k, v)].
Proof.
  induction m as [|[k' v'] m IH]; simpl; [done|].
  rewrite not_elem_of_cons. intros [Hne Hnot].
  destruct (String.eqb_spec k k'); [done|]. by rewrite IH.
Qed.

Lemma map_set_NoDup (k : string) (v : CADObject) (m : ObjectMap) :
  NoDup (map_keys m) -> NoDup (map_keys (map_set k v m)).
Proof.
  intros Hnd. rewrite map_set_keys. unfold map_has.
  destruct (map_get k m) eqn:E; [done|].
  apply map_get_None in E. apply NoDup_app. split; [done|].
  split; [|apply NoDup_singleton].
  intros x Hx Hk. apply list_elem_of_singleton in Hk. by subst.
Qed.

Lemma map_delete_keys (k x : string) (m : ObjectMap) :
  x ∈ map_keys (map_delete k m) -> x ∈ map_keys m.
Proof.
  induction m as [|[k' v'] m IH]; simpl; [done|].
  destruct (String.eqb_spec k k'); simpl.
  - intros H. apply elem_of_cons. by right.
  - rewrite !elem_of_cons. intros [->|H]; [by left|right; by apply IH].
Qed.

Lemma map_delete_NoDup (k : string) (m : ObjectMap) :
  NoDup (map_keys m) -> NoDup (map_keys (map_delete k m)).
Proof.
  induction m as [|[k' v'] m IH]; simpl; [done|].
  rewrite NoDup_cons. intros [Hnot Hnd].
  destruct (String.eqb_spec k k'); simpl; [done|].
  apply NoDup_cons. split; [|by apply IH].
  intros Hin. by apply Hnot, (map_delete_keys k).
Qed.

Lemma load_objects_NoDup (loaded : list (option CADObject)) :
  forall acc, NoDup (map_keys acc) -> NoDup (map_keys (load_objects loaded acc)).
Proof.
  induction loaded as [|[obj|] l IH]; intros acc Hnd; simpl; try done.
  by apply IH, map_set_NoDup.
Qed.

Lemma loadScene_NoDup (json : json_text) (s : SceneManager) :
  NoDup (map_keys (objects s)) -> NoDup (map_keys (objects (loadScene json s))).
Proof.
  destruct json; simpl; try done. intros _.
  apply (load_objects_NoDup loaded []). apply NoDup_nil_2.
Qed.

Lemma processCommand_NoDup (newId : string) (cmd : AICommand) (s : SceneManager) :
  NoDup (map_keys (objects s)) ->
  NoDup (map_keys (objects (processCommand newId cmd s))).
Proof.
  intros Hnd. unfold processCommand, undo, redo.
  destruct (action cmd); try done.
  - destruct (objectData cmd); [|done]. by apply map_set_NoDup.
  - destruct (or_else _ _); [|done]. destruct (truthy _); [|done].
    destruct (map_get _ _); [|done]. by apply map_set_NoDup.
  - destruct (or_else _ _); [|done]. destruct (truthy _); [|done].
    by apply map_delete_NoDup.
  - apply NoDup_nil_2.
  - destruct (last (history s)); [|done]. by apply loadScene_NoDup.
  - destruct (last (redoStack s)); [|done]. by apply loadScene_NoDup.
Qed.

Lemma apply_op_NoDup (o : operation) (s : SceneManager) :
  NoDup (map_keys (objects s)) -> NoDup (map_keys (objects (apply_op o s))).
Proof.
  intros Hnd. destruct o; simpl.
  - unfold renameObject. destruct (map_get i (objects s)); [|done].
    destruct (String.eqb _ _); [done|]. by apply map_set_NoDup.
  - unfold duplicateObject. destruct (map_get i (objects s)); [|done].
    destruct (position c) as [[p0 p1] p2]. by apply map_set_NoDup.
  - unfold processCommands.
    assert (H0 : NoDup (map_keys (objects
              (if existsb modifies commands then saveState s else s))))
      by (by destruct (existsb modifies commands)).
    revert H0. generalize (if existsb modifies commands then saveState s else s).
    generalize 0. induction commands as [|cmd rest IH]; intros k s0 H0; simpl; [done|].
    by apply IH, processCommand_NoDup.
  - unfold undo. destruct (last (history s)); [|done]. by apply loadScene_NoDup.
  - unfold redo. destruct (last (redoStack s)); [|done]. by apply loadScene_NoDup.
  - by apply loadScene_NoDup.
Qed.

Lemma run_NoDup (ops : list operation) :
  forall s, NoDup (map_keys (objects s)) -> NoDup (map_keys (objects (run ops s))).
Proof.
  unfold run. induction ops as [|o ops IH]; intros s Hnd; simpl; [done|].
  by apply IH, apply_op_NoDup.
Qed.

Lemma load_objects_append (m : ObjectMap) :
  forall acc,
    Forall (fun e : string * CADObject => id (snd e) = fst e) m ->
    NoDup (map_keys (acc ++ m)) ->
    load_objects (List.map Some (map_values m)) acc = acc ++ m.
Proof.
  induction m as [|[k o] m IH]; intros acc Hid Hnd; simpl.
  - by rewrite app_nil_r.
  - apply Forall_cons in Hid as [Hk Hid]. simpl in Hk. rewrite Hk.
    assert (Hnew : k ∉ map_keys acc).
    { unfold map_keys in *. rewrite map_app in Hnd. simpl in Hnd.
      apply NoDup_app in Hnd as (_ & Hdisj & _).
      intros Hin. apply (Hdisj k Hin). apply elem_of_cons. by left. }
    rewrite (map_set_new k o acc Hnew).
    rewrite IH; [by rewrite <- app_assoc|done|by rewrite <- app_assoc].
Qed.

(** ** Objects and their keys *)

Abbreviation keyed := (Forall (fun e : string * CADObject => id (snd e) = fst e)).

Lemma map_get_keyed (k : string) (o : CADObject) (m : ObjectMap) :
  keyed m -> map_get k m = Some o -> id o = k.
Proof.
  induction 1 as [|[k' v] m Hk Hm IH]; simpl; [done|].
  destruct (String.eqb_spec k k') as [->|Hne]; [|done]. by intros [= <-].
Qed.

Lemma map_set_keyed (k : string) (v : CADObject) (m : ObjectMap) :
  keyed m -> id v = k -> keyed (map_set k v m).
Proof.
  intros Hm Hv. induction Hm as [|[k' v'] m Hk Hm IH]; simpl.
  - by repeat constructor.
  - destruct (String.eqb_spec k k') as [->|Hne]; constructor; done.
Qed.

Lemma map_delete_keyed (k : string) (m : ObjectMap) :
  keyed m -> keyed (map_delete k m).
Proof.
  induction 1 as [|[k' v'] m Hk Hm IH]; simpl; [done|].
  destruct (String.eqb_spec k k'); [done|]. by constructor.
Qed.

Lemma load_objects_keyed (loaded : list (option CADObject)) :
  forall acc, keyed acc -> keyed (load_objects loaded acc).
Proof.
  induction loaded as [|[obj|] l IH]; intros acc Hacc; simpl; try done.
  by apply IH, map_set_keyed.
Qed.

Lemma loadScene_keyed (json : json_text) (s : SceneManager) :
  keyed_by_id s -> keyed_by_id (loadScene json s).
Proof.
  unfold keyed_by_id. destruct json; simpl; try done. intros _.
  apply load_objects_keyed. constructor.
Qed.

Lemma undo_keyed (s : SceneManager) : keyed_by_id s -> keyed_by_id (undo s).
Proof.
  intros Hk. unfold undo. destruct (last (history s)); [|done]. by apply loadScene_keyed.
Qed.

Lemma redo_keyed (s : SceneManager) : keyed_by_id s -> keyed_by_id (redo s).
Proof.
  intros Hk. unfold redo. destruct (last (redoStack s)); [|done]. by apply loadScene_keyed.
Qed.

Lemma processCommand_keyed (newId : string) (cmd : AICommand) (s : SceneManager) :
  keeps_id cmd = true -> keyed_by_id s -> keyed_by_id (processCommand newId cmd s).
Proof.
  unfold keeps_id, keyed_by_id, processCommand. intros Hkeep Hk.
  destruct (action cmd); try done.
  - destruct (objectData cmd); [|done]. by apply map_set_keyed.
  - destruct (objectData cmd) as [d|]; simpl in *.
    + destruct (Partial.id d) eqn:Hid; [done|].
      destruct (or_else _ _) as [t|]; [|done]. destruct (truthy _); [|done].
      destruct (map_get t (objects s)) as [existing|] eqn:Hget; [|done].
      apply map_set_keyed; [done|].
      assert (Hex : id existing = t) by (by apply (map_get_keyed t existing (objects s))).
      destruct (Partial.name d) as [n|]; [destruct (String.eqb n "")|];
        simpl; by rewrite Hid.
    + destruct (or_else _ _) as [t|]; [|done]. destruct (truthy _); [|done].
      destruct (map_get t (objects s)) as [existing|] eqn:Hget; [|done].
      apply map_set_keyed; [done|].
      by apply (map_get_keyed t existing (objects s)).
  - destruct (or_else _ _); [|done]. destruct (truthy _); [|done].
    by apply map_delete_keyed.
  - by apply undo_keyed.
  - by apply redo_keyed.
Qed.

Lemma apply_op_keyed (o : operation) (s : SceneManager) :
  keeps_ids o = true -> keyed_by_id s -> keyed_by_id (apply_op o s).
Proof.
  intros Hkeep Hk. destruct o; simpl.
  - unfold renameObject. destruct (map_get i (objects s)) as [obj|] eqn:Hget; [|done].
    destruct (String.eqb _ _); [done|]. apply map_set_keyed; [done|].
    by apply (map_get_keyed i obj (objects s)).
  - unfold duplicateObject. destruct (map_get i (objects s)); [|done].
    destruct (position c) as [[p0 p1] p2]. by apply map_set_keyed.
  - unfold processCommands. simpl in Hkeep.
    assert (H0 : keyed_by_id (if existsb modifies commands then saveState s else s))
      by (by destruct (existsb modifies commands)).
    revert H0. generalize (if existsb modifies commands then saveState s else s).
    generalize 0. induction commands as [|cmd rest IH]; intros k s0 H0; simpl; [done|].
    simpl in Hkeep. apply andb_true_iff in Hkeep as [Hc Hrest].
    by apply IH, processCommand_keyed.
  - by apply undo_keyed.
  - by apply redo_keyed.
  - by apply loadScene_keyed.
Qed.

(** X1.  In a state reached by operations none of whose UPDATE commands
    carries an [id] field, every object is stored under its own identifier. *)
Theorem objects_keyed_by_id (ops : list operation) :
  forallb keeps_ids ops = true -> keyed_by_id (run ops new).
Proof.
  unfold run. assert (H0 : keyed_by_id new) by constructor.
  revert H0. generalize new.
  induction ops as [|o ops IH]; intros s H0 Hkeep; simpl; [done|].
  simpl in Hkeep. apply andb_true_iff in Hkeep as [Ho Hrest].
  by apply IH; [apply apply_op_keyed|].
Qed.

Lemma objects_keyed_by_id_witness :
  keyed_by_id (run (first_batch :: twenty_batches) new).
Proof. apply (objects_keyed_by_id (first_batch :: twenty_batches)). reflexivity. Defined.

(** ** Names *)

Abbreviation names m := (List.map name (map_values m)).

Lemma taken_names_elem (excludeId : option string) (m : ObjectMap) (o : CADObject) :
  o ∈ map_values m ->
  (forall e, excludeId = Some e -> id o <> e) ->
  In (name o) (taken_names excludeId m).
Proof.
  intros Ho Hex. unfold taken_names. apply in_map, filter_In. split.
  - by apply list_elem_of_In.
  - destruct excludeId as [e|]; [|done].
    apply negb_true_iff, String.eqb_neq. by apply Hex.
Qed.

Lemma map_set_names_elem (k : string) (v : CADObject) (m : ObjectMap) (x : string) :
  x ∈ names (map_set k v m) -> x = name v \/ x ∈ names m.
Proof.
  induction m as [|[k' v'] m IH]; simpl.
  - rewrite list_elem_of_singleton. by left.
  - destruct (String.eqb_spec k k'); simpl; rewrite !elem_of_cons.
    + intros [->|H]; [by left|right; by right].
    + intros [->|H]; [right; by left|]. destruct (IH H); [by left|right; by right].
Qed.

Lemma map_set_names (k : string) (v : CADObject) (m : ObjectMap) :
  NoDup (map_keys m) ->
  NoDup (names m) ->
  (forall e, e ∈ m -> fst e <> k -> name (snd e) <> name v) ->
  NoDup (names (map_set k v m)).
Proof.
  induction m as [|[k' v'] m IH]; simpl; intros Hkeys Hnames Hother.
  - apply NoDup_singleton.
  - apply NoDup_cons in Hkeys as [Hk' Hkeys]. apply NoDup_cons in Hnames as [Hv' Hnames].
    destruct (String.eqb_spec k k') as [->|Hne]; simpl; apply NoDup_cons.
    + split; [|done]. intros Hin. apply list_elem_of_fmap in Hin as (o & Ho & Hin).
      apply list_elem_of_fmap in Hin as ([k0 o0] & -> & Hin). simpl in Ho.
      apply (Hother (k0, o0)); [by right| |done]. simpl. intros ->.
      apply Hk'. apply list_elem_of_fmap. by exists (k', o0).
    + split.
      * intros Hin. apply map_set_names_elem in Hin as [Hin|Hin]; [|done].
        apply (Hother (k', v')); [by left|simpl; congruence|done].
      * apply IH; [done|done|]. intros e He. apply Hother. by right.
Qed.

Lemma map_delete_names (k : string) (m : ObjectMap) :
  NoDup (names m) -> NoDup (names (map_delete k m)).
Proof.
  induction m as [|[k' v'] m IH]; simpl; [done|].
  rewrite NoDup_cons. intros [Hv' Hnames].
  destruct (String.eqb_spec k k'); simpl; [done|].
  apply NoDup_cons. split; [|by apply IH].
  intros Hin. apply Hv'. clear -Hin.
  induction m as [|[k0 v0] m IH]; simpl in *; [done|].
  destruct (String.eqb_spec k k0); simpl in *; rewrite ?elem_of_cons in *.
  - by right.
  - destruct Hin as [->|Hin]; [by left|right; by apply IH].
Qed.

(** Storing under [k] an object named by [getUniqueName], with the objects
    stored under other keys among the names it avoided. *)
Lemma set_unique_name (k baseName : string) (excludeId : option string)
    (v : CADObject) (s : SceneManager) :
  NoDup (map_keys (objects s)) ->
  keyed_by_id s ->
  unique_names s ->
  name v = getUniqueName baseName excludeId s ->
  (forall e, excludeId = Some e -> e = k) ->
  NoDup (names (map_set k v (objects s))).
Proof.
  intros Hkeys Hkeyed Hnames Hv Hex.
  apply map_set_names; [done|done|].
  intros [k0 o0] He Hk0 Hclash. simpl in *.
  apply (getUniqueName_not_taken baseName excludeId s). rewrite <- Hv, <- Hclash. apply taken_names_elem.
  - apply list_elem_of_fmap. by exists (k0, o0).
  - intros e ->. rewrite (Hex e eq_refl).
    unfold keyed_by_id in Hkeyed. rewrite Forall_forall in Hkeyed.
    pose proof (Hkeyed (k0, o0) He) as Hid. simpl in Hid. congruence.
Qed.

Lemma processCommand_well_named (newId : string) (cmd : AICommand) (s : SceneManager) :
  naming_command cmd = true -> well_named s -> well_named (processCommand newId cmd s).
Proof.
  intros Hn (Hkeys & Hkeyed & Hnames).
  assert (Hkeep : keeps_id cmd = true).
  { unfold naming_command, keeps_id in *. by destruct (action cmd). }
  split; [by apply processCommand_NoDup|]. split; [by apply processCommand_keyed|].
  unfold naming_command, processCommand, unique_names, getObjects in *.
  destruct (action cmd); try done.
  - destruct (objectData cmd) as [d|]; [|done]. simpl.
    by eapply set_unique_name.
  - destruct (or_else _ _); [|done]. destruct (truthy _); [|done].
    by apply map_delete_names.
  - apply NoDup_nil_2.
Qed.

Lemma apply_op_well_named (o : operation) (s : SceneManager) :
  naming o = true -> well_named s -> well_named (apply_op o s).
Proof.
  intros Hn Hw. pose proof Hw as (Hkeys & Hkeyed & Hnames).
  destruct o; simpl in *; try done.
  - split; [by apply (apply_op_NoDup (OpRename i newName))|].
    split; [by apply (apply_op_keyed (OpRename i newName))|].
    unfold unique_names, getObjects, renameObject.
    destruct (map_get i (objects s)) as [obj|]; [|done].
    destruct (String.eqb _ _); [done|]. simpl.
    eapply (set_unique_name i newName (Some i)); try done. by intros e [= ->].
  - split; [by apply (apply_op_NoDup (OpDuplicate newId i))|].
    split; [by apply (apply_op_keyed (OpDuplicate newId i))|].
    unfold unique_names, getObjects, duplicateObject.
    destruct (map_get i (objects s)) as [obj|]; [|done].
    destruct (position obj) as [[p0 p1] p2]. simpl.
    by eapply (set_unique_name newId (name obj) None).
  - unfold processCommands.
    assert (H0 : well_named (if existsb modifies commands then saveState s else s))
      by (by destruct (existsb modifies commands)).
    revert H0. generalize (if existsb modifies commands then saveState s else s).
    generalize 0. induction commands as [|cmd rest IH]; intros k s0 H0; simpl; [done|].
    simpl in Hn. apply andb_true_iff in Hn as [Hc Hrest].
    by apply IH; [|apply processCommand_well_named].
Qed.

(** X3.  After any sequence of renames, duplications and batches of CREATE,
    DELETE, CLEAR and FOCUS commands, no two objects of the document share a
    name. *)
Theorem names_stay_unique (ops : list operation) :
  forallb naming ops = true -> unique_names (run ops new).
Proof.
  intros Hn. assert (Hw : well_named (run ops new)); [|apply Hw].
  unfold run. assert (H0 : well_named new).
  { repeat split; try apply NoDup_nil_2. constructor. }
  revert H0 Hn. generalize new.
  induction ops as [|o ops IH]; intros s H0 Hn; simpl; [done|].
  simpl in Hn. apply andb_true_iff in Hn as [Ho Hrest].
  by apply IH; [apply apply_op_well_named|].
Qed.

Lemma names_stay_unique_witness :
  unique_names (run (first_batch :: twenty_batches) new).
Proof. apply (names_stay_unique (first_batch :: twenty_batches)). reflexivity. Defined.

(** C9, as the code has it.  In a state reached by any sequence of operations
    in which every object is stored under its own identifier and reads back
    from JSON as it was written, importing the exported snapshot gives the
    same manager back: the same objects in the same order, field by field. *)
Theorem export_import_roundtrip (ops : list operation) :
  let s := run ops new in
  keyed_by_id s -> json_safe s -> loadScene (exportScene s) s = s.
Proof.
  intros s Hkey Hsafe.
  assert (Hnd : NoDup (map_keys (objects s))) by (apply run_NoDup, NoDup_nil_2).
  unfold loadScene, exportScene.
  assert (Hmap : List.map json_object (map_values (objects s)) = map_values (objects s)).
  { unfold json_safe, getObjects in Hsafe. induction Hsafe; simpl; [done|]. congruence. }
  rewrite Hmap.
  rewrite (load_objects_append (objects s) []); [|done|done].
  simpl. by destruct s.
Qed.

Lemma export_import_roundtrip_witness :
  loadScene (exportScene one_cube) one_cube = one_cube.
Proof.
  apply (export_import_roundtrip [OpCommands ids [create (Some "a") "Cube"]]).
  - repeat constructor.
  - repeat constructor.
Defined.

(** C9 as stated fails in two reachable states.  A position that is not a
    number is exported as [null]; and once an UPDATE has overwritten the
    identifier of the object stored under "a" with "b", the import stores both
    objects under "b" and keeps one. *)
Lemma export_import_changes_document :
  (position <$> getObject "a" nan_scene
     = Some (Some NaN, Some (Num 0), Some (Num 0)) /\
   position <$> getObject "a" (loadScene (exportScene nan_scene) nan_scene)
     = Some (None, Some (Num 0), Some (Num 0))) /\
  (List.map id (getObjects clash_scene) = ["b"; "b"] /\
   List.map name (getObjects clash_scene) = ["Left"; "Right"] /\
   List.map name (getObjects (loadScene (exportScene clash_scene) clash_scene))
     = ["Right"]).
Proof. vm_compute. repeat split; reflexivity. Qed.

(** ** Scenario D: two renames, two undos *)

(** C7.  An object is created with the name "X", renamed to "Y" and then to
    "Z"; one [undo] brings the name back to "Y", a second one to "X".  The
    object is created by a CREATE command whose other fields are arbitrary,
    in a new manager. *)
Theorem undo_restores_previous_names
    (newId : nat -> string) (target reasoning : option string) (d : Partial.t) :
  Partial.name d = Some "X" ->
  let s1 := processCommands newId [mkAICommand CREATE target reasoning (Some d)] new in
  exists a,
    map_keys (objects s1) = [a] /\
    name <$> getObject a s1 = Some "X" /\
    let s3 := renameObject a "Z" (renameObject a "Y" s1) in
    name <$> getObject a s3 = Some "Z" /\
    name <$> getObject a (undo s3) = Some "Y" /\
    name <$> getObject a (undo (undo s3)) = Some "X".
Proof.
  intros Hname s1.
  destruct d as [di dn dt dp dr dsc dc da dsel dv dg]. simpl in Hname. subst dn.
  pose (a := or_string di (or_string (or_else target di) (newId 0))).
  pose (o := newObj a "X" (Partial.mk di (Some "X") dt dp dr dsc dc da dsel dv dg)).
  assert (Hs1 : s1 = {| objects := [(a, o)]; history := [JsonArray []];
                        redoStack := [] |}) by reflexivity.
  rewrite Hs1. clear Hs1 s1. clearbody a. exists a.
  unfold renameObject, getObject, undo, getUniqueName, taken_names, has.
  repeat (cbn; rewrite ?String.eqb_refl).
  done.
Qed.

Lemma undo_restores_previous_names_witness :
  let s1 := processCommands ids [create (Some "A") "X"] new in
  exists a,
    map_keys (objects s1) = [a] /\
    name <$> getObject a s1 = Some "X" /\
    let s3 := renameObject a "Z" (renameObject a "Y" s1) in
    name <$> getObject a s3 = Some "Z" /\
    name <$> getObject a (undo s3) = Some "Y" /\
    name <$> getObject a (undo (undo s3)) = Some "X".
Proof.
  apply (undo_restores_previous_names ids None None
           (Partial.mk (Some "A") (Some "X") None None None None None None None None None)).
  reflexivity.
Defined.

(** ** Undo and redo *)

Lemma json_coord_idem (c : coord) : json_coord (json_coord c) = json_coord c.
Proof. by destruct c as [[]|]. Qed.

Lemma json_vector_idem (v : Vector3) : json_vector (json_vector v) = json_vector v.
Proof. destruct v as [[a b] c]. simpl. by rewrite !json_coord_idem. Qed.

Lemma json_object_idem (o : CADObject) : json_object (json_object o) = json_object o.
Proof.
  unfold json_object. simpl. rewrite !json_vector_idem. f_equal.
  - destruct (args o) as [l|]; simpl; [|done]. f_equal.
    rewrite map_map. apply map_ext. intros c. apply json_coord_idem.
  - by destruct (geometryData o) as [[]|].
Qed.

Lemma keyed_ids (m : ObjectMap) : keyed m -> List.map id (map_values m) = map_keys m.
Proof. induction 1 as [|[k v] m Hk Hm IH]; simpl in *; [done|]. by rewrite Hk, IH. Qed.

Lemma until_null_Some (l : list CADObject) : until_null (List.map Some l) = l.
Proof. induction l; simpl; congruence. Qed.

Lemma exportScene_snapshot_ok (s : SceneManager) :
  NoDup (map_keys (objects s)) -> keyed_by_id s -> snapshot_ok (exportScene s).
Proof.
  intros Hnd Hk. unfold exportScene, snapshot_ok. rewrite until_null_Some.
  split; [done|]. split.
  - rewrite map_map. simpl. change (NoDup (List.map id (map_values (objects s)))).
    by rewrite keyed_ids.
  - apply Forall_forall. intros o Ho. apply list_elem_of_In, in_map_iff in Ho.
    destruct Ho as (o' & <- & _). apply json_object_idem.
Qed.

Lemma load_objects_distinct (loaded : list CADObject) :
  NoDup (List.map id loaded) ->
  load_objects (List.map Some loaded) [] = List.map (fun obj => (id obj, obj)) loaded.
Proof.
  intros Hnd. set (m := List.map (fun obj => (id obj, obj)) loaded).
  assert (Hv : map_values m = loaded).
  { unfold map_values, m. clear. induction loaded; simpl; congruence. }
  rewrite <- Hv at 1. apply (load_objects_append m []).
  - apply Forall_forall. intros e He. apply list_elem_of_In, in_map_iff in He.
    by destruct He as (o & <- & _).
  - simpl. unfold map_keys, m. by rewrite map_map.
Qed.

(** A snapshot that reads back: loading it and exporting gives it again. *)
Lemma ok_snapshot_reloads (x : json_text) (s : SceneManager) :
  snapshot_ok x -> exportScene (loadScene x s) = x.
Proof.
  destruct x as [loaded| |]; simpl; try done. intros (Hall & Hnd & Hsafe).
  remember (until_null loaded) as objs eqn:E. clear E. subst loaded.
  unfold exportScene. simpl. rewrite (load_objects_distinct objs Hnd).
  do 2 f_equal. clear Hnd.
  induction Hsafe as [|o l Ho Hl IH]; simpl; [done|]. by rewrite Ho, IH.
Qed.

Lemma json_safe_values (s : SceneManager) :
  json_safe s -> List.map json_object (map_values (objects s)) = map_values (objects s).
Proof.
  unfold json_safe, getObjects. induction 1; simpl; [done|]. congruence.
Qed.

(** Loading the export of a document with distinct keys, each object under
    its identifier and safe for JSON, gives the objects of the document. *)
Lemma load_exported (s s' : SceneManager) :
  NoDup (map_keys (objects s)) -> keyed_by_id s -> json_safe s ->
  objects (loadScene (exportScene s) s') = objects s.
Proof.
  intros Hnd Hk Hsafe. simpl. rewrite (json_safe_values s Hsafe).
  apply (load_objects_append (objects s) []); done.
Qed.

Lemma saveState_last (s : SceneManager) :
  exists h, history (saveState s) = h ++ [exportScene s] /\
    (length (history s) < maxHistory -> h = history s).
Proof.
  unfold saveState. simpl. rewrite length_app. simpl.
  destruct (Nat.ltb_spec maxHistory (length (history s) + 1)) as [Hlt|Hge].
  - destruct (history s) as [|x h].
    + unfold maxHistory in Hlt. simpl in Hlt. lia.
    + exists h. split; [done|]. unfold maxHistory in *. simpl in *. lia.
  - by exists (history s).
Qed.

Lemma Forall_tl {A} (P : A -> Prop) (l : list A) : Forall P l -> Forall P (tl l).
Proof. by destruct 1. Qed.

Lemma Forall_removelast {A} (P : A -> Prop) (l : list A) :
  Forall P l -> Forall P (removelast l).
Proof.
  induction 1 as [|x l Hx Hl IH]; simpl; [done|]. destruct l; [done|]. by constructor.
Qed.

Lemma Forall_last {A} (P : A -> Prop) (l : list A) (x : A) :
  Forall P l -> last l = Some x -> P x.
Proof.
  intros Hl E. apply last_Some in E as [h ->]. apply Forall_app in Hl as [_ Hx].
  by inversion Hx.
Qed.

Lemma saveState_consistent (s : SceneManager) : consistent s -> consistent (saveState s).
Proof.
  intros (Hnd & Hk & Hh & Hr).
  split; [done|]. split; [done|]. split; [|constructor]. simpl.
  assert (Hp : Forall snapshot_ok (history s ++ [exportScene s])).
  { apply Forall_app. split; [done|]. apply Forall_singleton.
    by apply exportScene_snapshot_ok. }
  destruct (Nat.ltb _ _); [by apply Forall_tl|done].
Qed.

Lemma loadScene_consistent (json : json_text) (s : SceneManager) :
  consistent s -> consistent (loadScene json s).
Proof.
  intros (Hnd & Hk & Hh & Hr). split; [by apply loadScene_NoDup|].
  split; [by apply loadScene_keyed|]. by destruct (loadScene_stacks json s) as [-> ->].
Qed.

Lemma undo_consistent (s : SceneManager) : consistent s -> consistent (undo s).
Proof.
  intros Hc. pose proof Hc as (Hnd & Hk & Hh & Hr). unfold undo.
  destruct (last (history s)); [|done]. apply loadScene_consistent.
  split; [done|]. split; [done|]. split; simpl.
  - by apply Forall_removelast.
  - apply Forall_app. split; [done|]. apply Forall_singleton.
    by apply exportScene_snapshot_ok.
Qed.

Lemma redo_consistent (s : SceneManager) : consistent s -> consistent (redo s).
Proof.
  intros Hc. pose proof Hc as (Hnd & Hk & Hh & Hr). unfold redo.
  destruct (last (redoStack s)); [|done]. apply loadScene_consistent.
  split; [done|]. split; [done|]. split; simpl.
  - apply Forall_app. split; [done|]. apply Forall_singleton.
    by apply exportScene_snapshot_ok.
  - by apply Forall_removelast.
Qed.

Lemma processCommand_consistent (newId : string) (cmd : AICommand) (s : SceneManager) :
  keeps_id cmd = true -> consistent s -> consistent (processCommand newId cmd s).
Proof.
  intros Hkeep Hc. pose proof Hc as (Hnd & Hk & Hh & Hr).
  destruct (action cmd) eqn:Hact;
    try (split; [by apply processCommand_NoDup|];
         split; [by apply processCommand_keyed|];
         unfold processCommand; rewrite Hact;
         repeat case_match; done).
  - unfold processCommand. rewrite Hact. by apply undo_consistent.
  - unfold processCommand. rewrite Hact. by apply redo_consistent.
Qed.

Lemma forEach_consistent (newId : nat -> string) (commands : list AICommand) :
  forallb keeps_id commands = true ->
  forall k s, consistent s -> consistent (forEach newId k commands s).
Proof.
  induction commands as [|cmd rest IH]; intros Hkeep k s Hc; simpl; [done|].
  simpl in Hkeep. apply andb_true_iff in Hkeep as [Hcmd Hrest].
  by apply IH, processCommand_consistent.
Qed.

Lemma apply_op_consistent (o : operation) (s : SceneManager) :
  keeps_ids o = true -> consistent s -> consistent (apply_op o s).
Proof.
  intros Hkeep Hc.
  destruct o; simpl.
  - pose proof (apply_op_NoDup (OpRename i newName) s) as Hnd.
    pose proof (apply_op_keyed (OpRename i newName) s) as Hk. simpl in Hnd, Hk.
    destruct (saveState_consistent s Hc) as (_ & _ & Hh & Hr).
    destruct Hc as (Hnd0 & Hk0 & Hh0 & Hr0).
    split; [by apply Hnd|]. split; [by apply Hk|].
    unfold renameObject. destruct (map_get i (objects s)); [|done].
    by destruct (String.eqb _ _).
  - pose proof (apply_op_NoDup (OpDuplicate newId i) s) as Hnd.
    pose proof (apply_op_keyed (OpDuplicate newId i) s) as Hk. simpl in Hnd, Hk.
    destruct (saveState_consistent s Hc) as (_ & _ & Hh & Hr).
    destruct Hc as (Hnd0 & Hk0 & Hh0 & Hr0).
    split; [by apply Hnd|]. split; [by apply Hk|].
    unfold duplicateObject. destruct (map_get i (objects s)); [|done].
    by destruct (position c) as [[p0 p1] p2].
  - unfold processCommands. apply forEach_consistent; [done|].
    destruct (existsb modifies commands); [by apply saveState_consistent|done].
  - by apply undo_consistent.
  - by apply redo_consistent.
  - by apply loadScene_consistent.
Qed.

Lemma run_consistent (ops : list operation) :
  forallb keeps_ids ops = true ->
  forall s, consistent s -> consistent (run ops s).
Proof.
  unfold run. induction ops as [|o ops IH]; intros Hkeep s Hc; simpl; [done|].
  simpl in Hkeep. apply andb_true_iff in Hkeep as [Ho Hrest].
  by apply IH, apply_op_consistent.
Qed.

Lemma new_consistent : consistent new.
Proof. repeat split; constructor. Qed.

(** X4.  One [undo] takes back one edit.  Whatever the edit was (a rename, a
    duplication, or a batch with a CREATE, UPDATE, DELETE or CLEAR command and
    no UNDO or REDO), in a document whose objects are stored under their
    identifiers and are safe for JSON, the objects after the undo are the
    objects before the edit, in the same order; the redo stack then holds the
    edited document, and the undo stack is as before the edit unless it was
    full. *)
Theorem undo_reverts_edit (ops : list operation) (o : operation) :
  let s := run ops new in
  keyed_by_id s -> json_safe s -> mutating o s = true ->
  objects (undo (apply_op o s)) = objects s /\
  redoStack (undo (apply_op o s)) = [exportScene (apply_op o s)] /\
  (length (history s) < maxHistory -> history (undo (apply_op o s)) = history s).
Proof.
  intros s Hk Hsafe Hm.
  assert (Hnd : NoDup (map_keys (objects s))) by apply run_NoDup, NoDup_nil_2.
  destruct (mutating_saves o s Hm) as [Hh Hr].
  destruct (saveState_last s) as (h & Hlast & Hfull). rewrite Hlast in Hh.
  rewrite (undo_snoc _ h _ Hh), Hr.
  split; [by apply load_exported|]. split; [done|]. intros Hlen.
  by rewrite (Hfull Hlen).
Qed.

Lemma undo_reverts_edit_witness :
  let s := run [OpCommands ids [create (Some "a") "Cube"]] new in
  let o := OpCommands ids [mkAICommand CLEAR None None None] in
  getObjects (apply_op o s) = [] /\
  (objects (undo (apply_op o s)) = objects s /\
   redoStack (undo (apply_op o s)) = [exportScene (apply_op o s)] /\
   (length (history s) < maxHistory -> history (undo (apply_op o s)) = history s)).
Proof.
  split; [reflexivity|].
  apply (undo_reverts_edit [OpCommands ids [create (Some "a") "Cube"]]
           (OpCommands ids [mkAICommand CLEAR None None None])).
  - repeat constructor.
  - repeat constructor.
  - reflexivity.
Defined.

(** X5.  [undo] and [redo] are inverse to each other.  In a state reached by
    operations none of whose UPDATE commands carries an [id] field, and whose
    objects are safe for JSON, a [redo] after an [undo] that had a snapshot to
    go back to gives the manager as it was (the document and both stacks), and
    so does an [undo] after a [redo] that had a snapshot to go forward to. *)
Theorem undo_redo_inverse (ops : list operation) :
  let s := run ops new in
  forallb keeps_ids ops = true -> json_safe s ->
  (history s <> [] -> redo (undo s) = s) /\
  (redoStack s <> [] -> undo (redo s) = s).
Proof.
  intros s Hkeep Hsafe.
  destruct (run_consistent ops Hkeep new new_consistent) as (Hnd & Hk & Hh & Hr).
  fold s in Hnd, Hk, Hh, Hr. clearbody s.
  pose proof (json_safe_values s Hsafe) as Hvals.
  destruct s as [m h r]. simpl in *.
  split; intros Hne.
  - destruct (last h) as [x|] eqn:E; [|by apply last_None in E].
    pose proof (Forall_last _ _ _ Hh E) as Hx.
    apply last_Some in E as [h' ->].
    unfold undo. simpl. rewrite last_snoc, removelast_last.
    destruct x as [loaded| |]; try done. simpl.
    unfold redo. simpl. rewrite last_snoc, removelast_last. simpl.
    rewrite Hvals, (load_objects_append m []) by done. simpl.
    pose proof (ok_snapshot_reloads (JsonArray loaded) new Hx) as Hback.
    unfold exportScene in *. simpl in *. by rewrite Hback.
  - destruct (last r) as [x|] eqn:E; [|by apply last_None in E].
    pose proof (Forall_last _ _ _ Hr E) as Hx.
    apply last_Some in E as [r' ->].
    unfold redo. simpl. rewrite last_snoc, removelast_last.
    destruct x as [loaded| |]; try done. simpl.
    unfold undo. simpl. rewrite last_snoc, removelast_last. simpl.
    rewrite Hvals, (load_objects_append m []) by done. simpl.
    pose proof (ok_snapshot_reloads (JsonArray loaded) new Hx) as Hback.
    unfold exportScene in *. simpl in *. by rewrite Hback.
Qed.

Lemma undo_redo_inverse_witness :
  (history (run three_edits new) <> [] ->
   redo (undo (run three_edits new)) = run three_edits new) /\
  (redoStack (run three_edits_undone new) <> [] ->
   undo (redo (run three_edits_undone new)) = run three_edits_undone new).
Proof.
  split.
  - apply (undo_redo_inverse three_edits); [reflexivity|]. repeat constructor.
  - apply (undo_redo_inverse three_edits_undone); [reflexivity|]. repeat constructor.
Defined.

(** X6.  The snapshots of a manager are stable under import and export.  In a
    state reached by operations none of whose UPDATE commands carries an [id]
    field, the export of the document, and every snapshot on either stack, is
    a text that any manager loads and exports again unchanged; this holds also
    where the document itself is not safe for JSON. *)
Theorem snapshots_read_back (ops : list operation) (other : SceneManager) :
  let s := run ops new in
  forallb keeps_ids ops = true ->
  exportScene (loadScene (exportScene s) other) = exportScene s /\
  (forall x, x ∈ history s ++ redoStack s -> exportScene (loadScene x other) = x).
Proof.
  intros s Hkeep.
  destruct (run_consistent ops Hkeep new new_consistent) as (Hnd & Hk & Hh & Hr).
  fold s in Hnd, Hk, Hh, Hr. split.
  - by apply ok_snapshot_reloads, exportScene_snapshot_ok.
  - intros x Hx. apply ok_snapshot_reloads. apply elem_of_app in Hx as [Hx|Hx].
    + rewrite Forall_forall in Hh. by apply Hh.
    + rewrite Forall_forall in Hr. by apply Hr.
Qed.

Lemma snapshots_read_back_witness :
  exportScene (loadScene (exportScene nan_scene) new) = exportScene nan_scene /\
  (forall x, x ∈ history nan_scene ++ redoStack nan_scene ->
     exportScene (loadScene x new) = x).
Proof. apply (snapshots_read_back _ new). reflexivity. Defined.

(** ** Duplicates, absent targets and batches without an edit *)

Lemma map_get_values (k : string) (o : CADObject) (m : ObjectMap) :
  map_get k m = Some o -> o ∈ map_values m.
Proof.
  induction m as [|[k' v] m IH]; simpl; [done|].
  destruct (String.eqb_spec k k').
  - intros [= ->]. by left.
  - intros H. right. by apply IH.
Qed.

Lemma map_delete_absent (k : string) (m : ObjectMap) :
  map_get k m = None -> map_delete k m = m.
Proof.
  induction m as [|[k' v] m IH]; simpl; [done|].
  destruct (String.eqb_spec k k'); [done|]. intros H. by rewrite IH.
Qed.

Lemma set_objects_same (s : SceneManager) : set_objects (objects s) s = s.
Proof. by destruct s. Qed.

(** The sum [x + 1.5] is a sum of doubles: it is exact where the exact sum is
    a double, and rounded to the nearest double where it is not. *)
Lemma plus_1_5_rounds :
  plus_1_5 (Some (Num 0)) = Some (Num (3 # 2)) /\
  plus_1_5 (Some (Num (- (3 # 2)))) = Some (Num 0) /\
  plus_1_5 (Some (Num 10000000000000000)) = Some (Num 10000000000000002) /\
  plus_1_5 (Some (Num (3602879701896397 # 36028797018963968)))
  = Some (Num (3602879701896397 # 2251799813685248)) /\
  plus_1_5 (Some (Num 9007199254740992)) = Some (Num 9007199254740994).
Proof. vm_compute. repeat split; reflexivity. Qed.

(** X7.  [duplicateObject] on an object of the document, with a new
    identifier that is not in use: the document gains one object, placed
    last and stored under the new identifier; it is the original with the
    double sum of its x and 1.5 for x ([plus_1_5]), not selected, under a
    name made of the original's name and a positive integer, which no object
    of the document has; the objects that were there are untouched, and the
    edit is snapshotted. *)
Theorem duplicate_adds_copy (newId i : string) (obj : CADObject) (s : SceneManager) :
  getObject i s = Some obj ->
  getObject newId s = None ->
  let s' := duplicateObject newId i s in
  exists copy,
    objects s' = objects s ++ [(newId, copy)] /\
    id copy = newId /\
    selected copy = Some false /\
    position copy = (let '(p0, p1, p2) := position obj in (plus_1_5 p0, p1, p2)) /\
    appearance copy = appearance obj /\
    (exists r, 1 <= r /\ name copy = name obj +:+ decimal r) /\
    (forall o, o ∈ getObjects s -> name o <> name copy) /\
    history s' = history (saveState s) /\ redoStack s' = [].
Proof.
  intros Hget Hnew s'. subst s'. unfold getObject in *. unfold duplicateObject.
  rewrite Hget. destruct (position obj) as [[p0 p1] p2] eqn:Hpos. cbv zeta.
  eexists. split.
  { simpl. apply map_set_new. by apply map_get_None. }
  simpl. repeat split.
  - pose proof (map_get_values i obj (objects s) Hget) as Hin.
    assert (Htaken : has (taken_names None (objects s)) (name obj) = true).
    { apply has_In, taken_names_elem; done. }
    unfold getUniqueName. simpl. rewrite Htaken. simpl.
    destruct (count_up_spec (taken_names None (objects s)) (name obj)
                (length (taken_names None (objects s))) 1) as (Hle & _);
      [lia|lia|intros; lia|].
    eexists. split; [exact Hle|done].
  - intros o Ho Hclash.
    apply (getUniqueName_not_taken (name obj) None (saveState s)).
    rewrite <- Hclash. simpl. by apply taken_names_elem.
Qed.

Lemma duplicate_adds_copy_witness :
  exists copy,
    objects (duplicateObject "b" "a" one_cube) = objects one_cube ++ [("b", copy)] /\
    id copy = "b" /\
    selected copy = Some false /\
    position copy = (Some (Num (3 # 2)), Some (Num 0), Some (Num 0)) /\
    appearance copy
    = appearance (newObj "a" "Cube" (Partial.mk (Some "a") (Some "Cube") None None
                                       None None None None None None None)) /\
    (exists r, 1 <= r /\ name copy = "Cube" +:+ decimal r) /\
    (forall o, o ∈ getObjects one_cube -> name o <> name copy) /\
    history (duplicateObject "b" "a" one_cube) = history (saveState one_cube) /\
    redoStack (duplicateObject "b" "a" one_cube) = [].
Proof.
  apply (duplicate_adds_copy "b" "a"
           (newObj "a" "Cube" (Partial.mk (Some "a") (Some "Cube") None None None None
                                 None None None None None)) one_cube);
    reflexivity.
Defined.

(** X8.  A request for an object that is not in the document is ignored.  A
    rename and a duplication return at once: nothing changes and no snapshot
    is taken.  An UPDATE or DELETE command whose target is absent changes
    nothing either; but a batch made of it has taken its snapshot before the
    target is looked up, so the batch as a whole is [saveState]: the document
    is unchanged, the undo stack has one more entry and the redo stack is
    empty. *)
Theorem absent_target_is_ignored
    (newId : string) (cmd : AICommand) (t newName : string) (s : SceneManager) :
  getObject t s = None ->
  renameObject t newName s = s /\
  duplicateObject newId t s = s /\
  (or_else (targetId cmd) (objectData cmd ≫= Partial.id) = Some t ->
   action cmd = UPDATE \/ action cmd = DELETE ->
   processCommand newId cmd s = s /\
   processCommands (fun _ => newId) [cmd] s = saveState s).
Proof.
  unfold getObject. intros Hget.
  split; [unfold renameObject; by rewrite Hget|].
  split; [unfold duplicateObject; by rewrite Hget|].
  intros Ht Hact.
  assert (Hone : forall s0, objects s0 = objects s -> processCommand newId cmd s0 = s0).
  { intros s0 Hs0. unfold processCommand. rewrite Ht, Hs0.
    destruct Hact as [-> | ->].
    - rewrite Hget. by destruct (truthy _).
    - rewrite (map_delete_absent t _ Hget), <- Hs0, set_objects_same.
      by destruct (truthy _). }
  split; [by apply Hone|].
  unfold processCommands. simpl.
  replace (modifies cmd) with true by (unfold modifies; by destruct Hact as [-> | ->]).
  simpl. by apply Hone.
Qed.

Lemma absent_target_is_ignored_witness :
  let cmd := mkAICommand DELETE (Some "z") None None in
  renameObject "z" "Lid" one_cube = one_cube /\
  duplicateObject "b" "z" one_cube = one_cube /\
  (or_else (targetId cmd) (objectData cmd ≫= Partial.id) = Some "z" ->
   action cmd = UPDATE \/ action cmd = DELETE ->
   processCommand "b" cmd one_cube = one_cube /\
   processCommands (fun _ => "b") [cmd] one_cube = saveState one_cube).
Proof.
  apply (absent_target_is_ignored "b" (mkAICommand DELETE (Some "z") None None)
           "z" "Lid" one_cube).
  reflexivity.
Defined.

(** X9.  A batch without a CREATE, UPDATE, DELETE or CLEAR command takes no
    snapshot and keeps the redo stack: it is the sequence of [undo] and [redo]
    calls its UNDO and REDO commands stand for, in their order.  A batch of
    FOCUS commands alone leaves the manager as it is. *)
Theorem batch_without_edit (newId : nat -> string) (commands : list AICommand)
    (s : SceneManager) :
  existsb modifies commands = false ->
  processCommands newId commands s = fold_left (fun s c => replay c s) commands s /\
  (existsb history_command commands = false -> processCommands newId commands s = s).
Proof.
  intros Hm. unfold processCommands. rewrite Hm. generalize 0. revert s.
  induction commands as [|cmd rest IH]; intros s k; simpl; [done|].
  simpl in Hm. apply orb_false_iff in Hm as [Hcmd Hrest].
  assert (Hstep : processCommand (newId k) cmd s = replay cmd s).
  { unfold processCommand, replay, modifies in *. by destruct (action cmd). }
  rewrite Hstep. destruct (IH Hrest (replay cmd s) (S k)) as [-> Hidle].
  split; [done|]. intros Hh. apply orb_false_iff in Hh as [Hc Hr].
  rewrite (Hidle Hr).
  unfold replay, history_command in *. by destruct (action cmd).
Qed.

Lemma batch_without_edit_witness :
  let undo_it := mkAICommand UNDO None None None in
  let focus := mkAICommand FOCUS (Some "a") None None in
  let s := run three_edits new in
  processCommands ids [focus; undo_it; undo_it] s = undo (undo s) /\
  (existsb history_command [focus; focus] = false ->
   processCommands ids [focus; focus] s = s).
Proof.
  intros undo_it focus s. split.
  - apply (batch_without_edit ids [focus; undo_it; undo_it] s). reflexivity.
  - apply (batch_without_edit ids [focus; focus] s). reflexivity.
Defined.

(** ** DELETE and UPDATE act on their target alone *)

Lemma map_get_delete_eq (k : string) (m : ObjectMap) :
  NoDup (map_keys m) -> map_get k (map_delete k m) = None.
Proof.
  induction m as [|[k' v] m IH]; simpl; [done|].
  rewrite NoDup_cons. intros [Hnot Hnd].
  destruct (String.eqb_spec k k') as [->|Hne]; simpl.
  - by apply map_get_None.
  - destruct (String.eqb_spec k k'); [done|]. by apply IH.
Qed.

Lemma map_get_delete_ne (k k' : string) (m : ObjectMap) :
  k <> k' -> map_get k' (map_delete k m) = map_get k' m.
Proof.
  intros Hne. induction m as [|[k0 v] m IH]; simpl; [done|].
  destruct (String.eqb_spec k k0) as [->|H0]; simpl.
  - destruct (String.eqb_spec k' k0); [congruence|done].
  - destruct (String.eqb_spec k' k0); [done|apply IH].
Qed.

Lemma map_delete_keys_filter (k : string) (m : ObjectMap) :
  NoDup (map_keys m) ->
  map_keys (map_delete k m) = List.filter (fun x => negb (String.eqb x k)) (map_keys m).
Proof.
  induction m as [|[k' v] m IH]; simpl; [done|].
  rewrite NoDup_cons. intros [Hnot Hnd].
  destruct (String.eqb_spec k k') as [->|Hne]; simpl.
  - rewrite String.eqb_refl. simpl. symmetry.
    clear IH Hnd. induction (map_keys m) as [|x l IH]; simpl; [done|].
    apply not_elem_of_cons in Hnot as [Hx Hl].
    destruct (String.eqb_spec x k'); [congruence|]. simpl. f_equal. by apply IH.
  - destruct (String.eqb_spec k' k); [congruence|]. simpl. by rewrite IH.
Qed.

(** X10.  In any state a new manager reaches, a DELETE command with a target
    removes that object and nothing else: the target is no longer found, every
    other object is found as before, the remaining keys keep their order, and
    the command itself touches neither stack. *)
Theorem delete_removes_target (ops : list operation) (newId : string)
    (cmd : AICommand) (t : string) :
  let s := run ops new in
  let s' := processCommand newId cmd s in
  action cmd = DELETE ->
  or_else (targetId cmd) (objectData cmd ≫= Partial.id) = Some t ->
  t <> "" ->
  getObject t s' = None /\
  (forall k, k <> t -> getObject k s' = getObject k s) /\
  map_keys (objects s')
  = List.filter (fun x => negb (String.eqb x t)) (map_keys (objects s)) /\
  history s' = history s /\ redoStack s' = redoStack s.
Proof.
  intros s s' Hact Ht Hne.
  assert (Hnd : NoDup (map_keys (objects s))) by apply run_NoDup, NoDup_nil_2.
  assert (Hs' : s' = set_objects (map_delete t (objects s)) s).
  { subst s'. unfold processCommand. rewrite Hact, Ht. simpl.
    by destruct (String.eqb_spec t ""). }
  rewrite Hs'. unfold getObject. simpl.
  split; [by apply map_get_delete_eq|].
  split; [intros k Hk; by apply map_get_delete_ne|].
  split; [by apply map_delete_keys_filter|done].
Qed.

Lemma delete_removes_target_witness :
  let s := run three_edits new in
  let s' := processCommand "n" (delete "b") s in
  map_keys (objects s) = ["a"; "b"; "c"] /\
  (getObject "b" s' = None /\
   (forall k, k <> "b" -> getObject k s' = getObject k s) /\
   map_keys (objects s')
   = List.filter (fun x => negb (String.eqb x "b")) (map_keys (objects s)) /\
   history s' = history s /\ redoStack s' = redoStack s).
Proof.
  split; [reflexivity|].
  apply (delete_removes_target three_edits "n" (delete "b") "b"); done.
Defined.

(** X11.  An UPDATE command whose target is in the document acts on that
    object alone, and only on the fields it carries: the object found under
    the target is the old one overlaid with the fields of the command, its
    name made unique first; no key is added or moved, every other object is
    found as before, the command itself touches neither stack; and a command
    without fields leaves the manager as it is. *)
Theorem update_changes_only_target (newId : string) (cmd : AICommand) (t : string)
    (existing : CADObject) (s : SceneManager) :
  let s' := processCommand newId cmd s in
  action cmd = UPDATE ->
  or_else (targetId cmd) (objectData cmd ≫= Partial.id) = Some t ->
  t <> "" ->
  getObject t s = Some existing ->
  getObject t s' = Some (merge existing (clean_updates t cmd s)) /\
  map_keys (objects s') = map_keys (objects s) /\
  (forall k, k <> t -> getObject k s' = getObject k s) /\
  history s' = history s /\ redoStack s' = redoStack s /\
  (default Partial.empty (objectData cmd) = Partial.empty -> s' = s).
Proof.
  intros s' Hact Ht Hne Hget. unfold getObject in *.
  assert (Hs' : s' = set_objects
                       (map_set t (merge existing (clean_updates t cmd s)) (objects s)) s).
  { subst s'. unfold processCommand, clean_updates. rewrite Hact, Ht, Hget. simpl.
    destruct (String.eqb_spec t ""); [done|]. simpl.
    by repeat case_match. }
  assert (Hhas : map_has t (objects s) = true) by (unfold map_has; by rewrite Hget).
  rewrite Hs'. simpl. rewrite map_get_set_eq.
  destruct (map_set_present t (merge existing (clean_updates t cmd s)) (objects s) Hhas)
    as [-> _].
  repeat split; try done.
  - intros k Hk. by apply map_get_set_ne.
  - intros Hempty. unfold clean_updates. rewrite Hempty. simpl.
    assert (Hm : merge existing Partial.empty = existing) by (by destruct existing).
    rewrite Hm. clear -Hget. destruct s as [m h r]. unfold set_objects. simpl in *.
    f_equal. induction m as [|[k v] m IH]; simpl in *; [done|].
    destruct (String.eqb_spec t k); [congruence|]. by rewrite IH.
Qed.

Lemma update_changes_only_target_witness :
  let s := run three_edits new in
  let cmd := update "b" (move_to (Some (Num 2), Some (Num 0), Some (Num 0))) in
  let s' := processCommand "n" cmd s in
  (position <$> getObject "b" s' = Some (Some (Num 2), Some (Num 0), Some (Num 0)) /\
   name <$> getObject "b" s' = Some "Cube1") /\
  exists existing,
    getObject "b" s' = Some (merge existing (clean_updates "b" cmd s)) /\
    map_keys (objects s') = map_keys (objects s) /\
    (forall k, k <> "b" -> getObject k s' = getObject k s) /\
    history s' = history s /\ redoStack s' = redoStack s /\
    (default Partial.empty (objectData cmd) = Partial.empty -> s' = s).
Proof.
  intros s cmd s'. split; [split; reflexivity|].
  destruct (getObject "b" s) as [existing|] eqn:E; [|discriminate E].
  exists existing.
  apply (update_changes_only_target "n" cmd "b" existing s); done.
Defined.

(** ** CREATE, rename and import *)

(** X21.  A CREATE command whose identifier is not in use adds one object,
    placed last and stored under that identifier, which is the generated one
    only when the command asks for none.  The object is the literal of the
    code: the fields of the command with the defaults for those it lacks, so
    it is never selected, never without a colour and never carries geometry,
    whatever the command holds; its name is one that no object of the document
    has.  The objects that were there are untouched, and the command itself
    touches neither stack. *)
Theorem create_adds_object (newId : string) (cmd : AICommand) (d : Partial.t)
    (s : SceneManager) :
  let i := created_id newId cmd d in
  let s' := processCommand newId cmd s in
  action cmd = CREATE ->
  objectData cmd = Some d ->
  getObject i s = None ->
  exists o,
    objects s' = objects s ++ [(i, o)] /\
    o = newObj i (getUniqueName (or_string (Partial.name d) "Object") None s) d /\
    id o = i /\
    (requested_id cmd = None -> i = newId) /\
    (forall r, requested_id cmd = Some r -> i = r) /\
    (forall o', o' ∈ getObjects s -> name o' <> name o) /\
    selected o = Some false /\ geometryData o = None /\ color o <> "" /\
    (visible o = Some false <-> Partial.visible d = Some false) /\
    history s' = history s /\ redoStack s' = redoStack s.
Proof.
  intros i s' Hact Hd Hfree. unfold getObject in Hfree.
  assert (Hs' : s' = set_objects
            (map_set i (newObj i (getUniqueName (or_string (Partial.name d) "Object")
                                    None s) d) (objects s)) s).
  { subst s' i. unfold processCommand, created_id. cbv zeta. by rewrite Hact, Hd. }
  eexists. split.
  { rewrite Hs'. simpl. apply map_set_new. by apply map_get_None. }
  split; [done|]. split; [done|]. split; [|split; [|split; [|split; [|split;
    [|split; [|split]]]]]]; try done.
  - subst i. unfold created_id, requested_id. rewrite Hd. simpl.
    unfold truthy, or_else, or_string.
    destruct (Partial.id d) as [x|], (targetId cmd) as [t|]; simpl;
      repeat (match goal with
              | |- context [String.eqb ?a ""] => destruct (String.eqb_spec a "")
              end; simpl);
      congruence.
  - intros r Hr. subst i. unfold created_id. rewrite Hd. simpl.
    by apply requested_id_used.
  - intros o' Ho' Hclash. simpl in Hclash.
    apply (getUniqueName_not_taken (or_string (Partial.name d) "Object") None s).
    rewrite <- Hclash. by apply taken_names_elem.
  - simpl. unfold or_string. destruct (Partial.color d) as [c|]; [|done].
    by destruct (String.eqb_spec c "").
  - simpl. by destruct (Partial.visible d) as [[]|].
  - by rewrite Hs'.
Qed.

Lemma create_adds_object_witness :
  let cmd := create None "Cube" in
  exists o,
    objects (processCommand "obj_9" cmd one_cube) = objects one_cube ++ [("obj_9", o)] /\
    name o = "Cube1" /\ color o = "#3b82f6" /\ geometryData o = None.
Proof.
  intros cmd.
  destruct (create_adds_object "obj_9" cmd
              (Partial.mk None (Some "Cube") None None None None None None None None None)
              one_cube eq_refl eq_refl eq_refl)
    as (o & Hobjs & -> & _).
  eexists. split; [exact Hobjs|]. repeat split.
Defined.

(** X22.  A rename of an object to a name it does not have gives it the name
    [getUniqueName] makes of the new name: a name that no object with another
    identifier has, and the new name itself when no such object has it.  The
    object keeps its place and its other fields, every other object is found
    as before, and the rename is snapshotted. *)
Theorem rename_sets_unique_name (i newName : string) (obj : CADObject)
    (s : SceneManager) :
  let s' := renameObject i newName s in
  let given := getUniqueName newName (Some i) s in
  getObject i s = Some obj ->
  name obj <> newName ->
  getObject i s' = Some (with_name obj given) /\
  map_keys (objects s') = map_keys (objects s) /\
  (forall k, k <> i -> getObject k s' = getObject k s) /\
  (forall o, o ∈ getObjects s -> id o <> i -> name o <> given) /\
  ((forall o, o ∈ getObjects s -> id o <> i -> name o <> newName) -> given = newName) /\
  history s' = history (saveState s) /\ redoStack s' = [].
Proof.
  intros s' given Hget Hne. unfold getObject in *.
  assert (Hs' : s' = set_objects (map_set i (with_name obj given) (objects s))
                       (saveState s)).
  { subst s'. unfold renameObject. rewrite Hget.
    by destruct (String.eqb_spec (name obj) newName). }
  assert (Hhas : map_has i (objects s) = true) by (unfold map_has; by rewrite Hget).
  rewrite Hs'. simpl. rewrite map_get_set_eq.
  destruct (map_set_present i (with_name obj given) (objects s) Hhas) as [-> _].
  split; [done|]. split; [done|].
  split; [intros k Hk; by apply map_get_set_ne|]. split; [|split; [|done]].
  - intros o Ho Hid Hclash.
    apply (getUniqueName_not_taken newName (Some i) s). fold given.
    rewrite <- Hclash. apply taken_names_elem; [done|]. by intros e [= <-].
  - intros Hfree. subst given. unfold getUniqueName.
    destruct (has (taken_names (Some i) (objects s)) newName) eqn:Hhasn; [|done].
    exfalso. apply has_In in Hhasn. unfold taken_names in Hhasn.
    apply in_map_iff in Hhasn as (o & Hname & Hin).
    apply filter_In in Hin as [Hin Hid]. apply negb_true_iff, String.eqb_neq in Hid.
    apply (Hfree o); [by apply list_elem_of_In|done|done].
Qed.

Lemma rename_sets_unique_name_witness :
  let s := run three_edits new in
  name <$> getObject "c" s = Some "Cube11" /\
  name <$> getObject "c" (renameObject "c" "Base" s) = Some "Base1" /\
  map_keys (objects (renameObject "c" "Base" s)) = map_keys (objects s).
Proof.
  intros s.
  destruct (getObject "c" s) as [obj|] eqn:E; [|discriminate E].
  destruct (rename_sets_unique_name "c" "Base" obj s E) as (H1 & H2 & _).
  { vm_compute in E. injection E as <-. discriminate. }
  rewrite H1. vm_compute in E. injection E as <-.
  split; [reflexivity|]. split; [reflexivity|exact H2].
Defined.

Lemma find_snoc {A} (p : A -> bool) (l : list A) (x : A) :
  List.find p (l ++ [x])
  = match List.find p l with
    | Some y => Some y
    | None => if p x then Some x else None
    end.
Proof. induction l as [|a l IH]; simpl; [done|]. by destruct (p a). Qed.

Lemma load_objects_get (i : string) (loaded : list (option CADObject)) :
  forall acc,
    map_get i (load_objects loaded acc)
    = match List.find (fun o => String.eqb (id o) i) (rev (until_null loaded)) with
      | Some o => Some o
      | None => map_get i acc
      end.
Proof.
  induction loaded as [|[o|] l IH]; intros acc; simpl; try done.
  rewrite IH, find_snoc.
  destruct (List.find _ (rev (until_null l))); [done|].
  destruct (String.eqb_spec (id o) i) as [<-|Hne].
  - apply map_get_set_eq.
  - by apply map_get_set_ne.
Qed.

Lemma load_objects_keys (k : string) (loaded : list (option CADObject)) :
  forall acc,
    k ∈ map_keys (load_objects loaded acc)
    <-> k ∈ map_keys acc \/ k ∈ List.map id (until_null loaded).
Proof.
  induction loaded as [|[o|] l IH]; intros acc; simpl.
  - split; [by left|]. intros [H|H]; [done|by apply elem_of_nil in H].
  - rewrite IH, map_set_keys, elem_of_cons. unfold map_has.
    destruct (map_get (id o) acc) eqn:E.
    + split; [intros [H|H]; [by left|right; by right]|].
      intros [H|[->|H]]; [by left| |by right].
      left. destruct (decide (id o ∈ map_keys acc)) as [Hin|Hnot]; [done|].
      apply map_get_None in Hnot. congruence.
    + rewrite elem_of_app, list_elem_of_singleton. tauto.
  - split; [by left|]. intros [H|H]; [done|by apply elem_of_nil in H].
Qed.

(** X23.  [loadScene] replaces the document by the array it is given and is
    not an edit: neither stack changes, so the import cannot be undone and
    what was in the document before is not recorded.  The map is cleared
    first; then the elements are stored under their identifiers, one after the
    other, up to the first [null] element, at which the import stops: an
    identifier is found with the last object before that element that has it,
    and the keys are the identifiers of the objects before it, each once.  So
    an array without [null] is loaded whole, and an array that starts with
    [null] empties the document.  A text that is not an array, or does not
    parse, changes nothing. *)
Theorem import_replaces_document (loaded : list (option CADObject))
    (s : SceneManager) :
  let s' := loadScene (JsonArray loaded) s in
  let read := until_null loaded in
  (forall i, getObject i s' = List.find (fun o => String.eqb (id o) i) (rev read)) /\
  NoDup (map_keys (objects s')) /\
  (forall k, k ∈ map_keys (objects s') <-> k ∈ List.map id read) /\
  keyed_by_id s' /\
  (forall objs, loaded = List.map Some objs -> read = objs) /\
  (forall objs rest, loaded = List.map Some objs ++ None :: rest -> read = objs) /\
  history s' = history s /\ redoStack s' = redoStack s /\
  loadScene JsonOther s = s /\ loadScene JsonInvalid s = s.
Proof.
  intros s' read. split; [|split; [|split; [|split; [|split; [|split]]]]]; try done.
  - intros i. unfold getObject. simpl. rewrite load_objects_get. simpl.
    by destruct (List.find _ _).
  - apply (load_objects_NoDup loaded []), NoDup_nil_2.
  - intros k. simpl. rewrite load_objects_keys. simpl. split; [|by right].
    intros [H|H]; [by apply elem_of_nil in H|done].
  - apply load_objects_keyed. constructor.
  - intros objs ->. apply until_null_Some.
  - intros objs rest ->. subst read. clear.
    induction objs as [|o objs IH]; simpl; [done|]. by rewrite IH.
Qed.

Lemma import_replaces_document_witness :
  let s' := loadScene (JsonArray half_loaded) one_cube in
  map_keys (objects s') = ["a"] /\
  name <$> getObject "a" s' = Some "First" /\
  getObject "b" s' = None /\
  history s' = history one_cube.
Proof.
  intros s'.
  destruct (import_replaces_document half_loaded one_cube)
    as (Hget & _ & _ & _ & _ & _ & Hh & _).
  fold s' in Hget, Hh. split; [reflexivity|]. rewrite !Hget.
  split; [reflexivity|]. split; [reflexivity|exact Hh].
Defined.

(** ** An UNDO command at the end of an editing batch *)

Lemma forEach_app (newId : nat -> string) (a b : list AICommand) :
  forall k s,
    forEach newId k (a ++ b) s = forEach newId (k + length a) b (forEach newId k a s).
Proof.
  induction a as [|c a IH]; intros k s; simpl.
  - by rewrite Nat.add_0_r.
  - rewrite IH. by replace (S k + length a) with (k + S (length a)) by lia.
Qed.

(** X24.  The snapshot of a batch is taken before its first command, so an
    UNDO command that ends an editing batch takes back the batch it is in,
    not the edit before it: the objects after the batch are those before it,
    the redo stack holds the document as the other commands of the batch left
    it, and the undo stack is as before the batch unless it was full. *)
Theorem undo_command_cancels_its_batch (ops : list operation) (newId : nat -> string)
    (commands : list AICommand) :
  let s := run ops new in
  let s' := processCommands newId (commands ++ [undo_command]) s in
  keyed_by_id s -> json_safe s ->
  existsb modifies commands = true ->
  existsb history_command commands = false ->
  objects s' = objects s /\
  redoStack s' = [exportScene (processCommands newId commands s)] /\
  (length (history s) < maxHistory -> history s' = history s).
Proof.
  intros s s' Hk Hsafe Hm Hh.
  assert (Hnd : NoDup (map_keys (objects s))) by apply run_NoDup, NoDup_nil_2.
  assert (Hs' : s' = undo (processCommands newId commands s)).
  { subst s'. unfold processCommands. rewrite existsb_app, Hm. simpl.
    by rewrite forEach_app. }
  destruct (mutating_saves (OpCommands newId commands) s) as [Hhist Hredo].
  { simpl. by rewrite Hm, Hh. }
  change (apply_op (OpCommands newId commands) s)
    with (processCommands newId commands s) in Hhist, Hredo.
  destruct (saveState_last s) as (h & Hlast & Hfull). rewrite Hlast in Hhist.
  rewrite Hs', (undo_snoc _ h _ Hhist), Hredo.
  split; [by apply load_exported|]. split; [done|]. intros Hlen.
  by rewrite (Hfull Hlen).
Qed.

Lemma undo_command_cancels_its_batch_witness :
  let s := run three_edits new in
  let s' := processCommands ids [delete "a"; create None "Lid"; undo_command] s in
  objects s' = objects s /\
  redoStack s' = [exportScene (processCommands ids [delete "a"; create None "Lid"] s)] /\
  (length (history s) < maxHistory -> history s' = history s).
Proof.
  apply (undo_command_cancels_its_batch three_edits ids [delete "a"; create None "Lid"]).
  - repeat constructor.
  - repeat constructor.
  - reflexivity.
  - reflexivity.
Defined.

End SceneFacts.

(** * Further properties of the script engine *)

Module SolidFacts.
Import Engine.

(** ** Transformations *)




(** ** Boolean operations *)

(** X13.  A boolean operation on two brushes, with the evaluator of the
    library taken as a function that returns a brush of its own making or
    throws, and that leaves its operands as they are.  The operands stay in
    the heap, each in its place with its
    geometry, kind, material and placement, and with its world matrix
    composed again; it is in that state that the evaluator gets them.  What
    the evaluator throws, the call throws.  Of the brush the evaluator returns
    the call keeps the geometry and the placement, sets the kind to MESH and
    the material to that of the first operand, and returns it under a new
    reference.  An object added from the result has the colour of the first
    operand, and the geometry and the placement the evaluator gave. *)
Theorem boolean_makes_new_solid
    (evaluate : Brush -> Brush -> operation -> outcome Brush)
    (now : nat -> nat) (op : operation) (ra rb : nat)
    (ba bb : Brush) (h : Heap) :
  h !! ra = Some ba -> h !! rb = Some bb ->
  exists h',
    length h' = length h /\
    (forall k b, h !! k = Some b ->
       exists b', h' !! k = Some b' /\ same_solid b b' /\
         material b' = material b /\ placement b' = placement b /\
         ((k = ra \/ k = rb) -> matrixWorld b' = placement b)) /\
    match evaluate (updateMatrixWorld ba) (updateMatrixWorld bb) op with
    | Throws e => csg evaluate op [VBrush ra; VBrush rb] h = Throw e
    | Returns result =>
        exists r,
          csg evaluate op [VBrush ra; VBrush rb] h = Ok (VBrush (length h), h' ++ [r]) /\
          geometry r = geometry result /\
          placement r = placement result /\
          matrixWorld r = matrixWorld result /\
          userData_type r = Some "MESH" /\
          material r = material ba /\
          forall n objs mat, exists o,
            Add now [VBrush (length h); n]
              {| heap := h' ++ [r]; objects := objs; ctx_material := mat |}
            = Ok (VUndefined,
                  {| heap := h' ++ [r]; objects := objs ++ [o]; ctx_material := mat |}) /\
            obj_color o = "#" +:+ color (material ba) /\
            geometryData o = geometry result /\
            (obj_position o, obj_rotation o, obj_scale o) = placement result
    end.
Proof.
  intros Ha Hb. unfold Heap in *.
  pose proof (lookup_lt_Some _ _ _ Ha) as Hla.
  pose proof (lookup_lt_Some _ _ _ Hb) as Hlb.
  set (h1 := <[ra := updateMatrixWorld ba]> h).
  assert (Hb1 : exists bb1, h1 !! rb = Some bb1 /\
                  updateMatrixWorld bb1 = updateMatrixWorld bb).
  { subst h1. destruct (decide (ra = rb)) as [->|Hne].
    - exists (updateMatrixWorld ba). split; [by apply list_lookup_insert_eq|].
      assert (ba = bb) by congruence. by subst.
    - exists bb. split; [by rewrite list_lookup_insert_ne|done]. }
  destruct Hb1 as (bb1 & Hb1 & Hu1).
  set (h2 := <[rb := updateMatrixWorld bb1]> h1).
  assert (Hlen : length h2 = length h) by (subst h2 h1; by rewrite !length_insert).
  assert (Hb2 : h2 !! rb = Some (updateMatrixWorld bb)).
  { subst h2. rewrite Hu1. apply list_lookup_insert_eq. subst h1.
    by rewrite length_insert. }
  assert (Ha2 : h2 !! ra = Some (updateMatrixWorld ba)).
  { subst h2. destruct (decide (rb = ra)) as [->|Hne].
    - rewrite Hu1. assert (ba = bb) by congruence. subst bb.
      apply list_lookup_insert_eq. subst h1. by rewrite length_insert.
    - rewrite list_lookup_insert_ne by done. subst h1.
      by apply list_lookup_insert_eq. }
  assert (Hrun : csg evaluate op [VBrush ra; VBrush rb] h
                 = match evaluate (updateMatrixWorld ba) (updateMatrixWorld bb) op with
                   | Returns result =>
                       alloc (with_material (material ba) (with_type "MESH" result)) h2
                   | Throws e => Throw e
                   end).
  { unfold csg, arg. cbn [nth truthy negb orb on_brush]. unfold Heap. rewrite Ha.
    fold h1. rewrite Hb1. fold h2. by rewrite Ha2, Hb2. }
  exists h2. split; [done|]. split.
  - intros k b Hk.
    destruct (decide (k = rb)) as [->|Hkb].
    + exists (updateMatrixWorld bb). split; [done|].
      assert (b = bb) by congruence. by subst b.
    + destruct (decide (k = ra)) as [->|Hka].
      * exists (updateMatrixWorld ba). split; [done|].
        assert (b = ba) by congruence. by subst b.
      * exists b. split; [subst h2 h1; by rewrite !list_lookup_insert_ne|].
        repeat split; try done. by intros [|].
  - destruct (evaluate (updateMatrixWorld ba) (updateMatrixWorld bb) op)
      as [result|e] eqn:He; rewrite Hrun; [|done].
    eexists. split; [unfold alloc; by rewrite Hlen|].
    repeat split; try done.
    intros n objs mat. eexists. split.
    + unfold Add, arg. cbn [nth truthy negb heap objects]. unfold Heap.
      rewrite lookup_app_r by lia. rewrite <- Hlen, Nat.sub_diag. simpl. reflexivity.
    + done.
Qed.

Lemma boolean_makes_new_solid_witness :
  (exists h' r,
     Subtract placed_as_first [VBrush 0; VBrush 1] two_solids = Ok (VBrush 2, h' ++ [r]) /\
     material r = {| color := "cccccc" |} /\
     userData_type r = Some "MESH" /\
     position r = (VNumber (Num 2), zero, zero)) /\
  Subtract fails_to_evaluate [VBrush 0; VBrush 1] two_solids
  = Throw (Error "empty geometry").
Proof.
  split.
  - destruct (boolean_makes_new_solid placed_as_first morning SUBTRACTION 0 1 _ _ two_solids
                eq_refl eq_refl)
      as (h' & _ & _ & r & Hrun & _ & Hpl & _ & Hkind & Hmat & _).
    exists h', r. split; [exact Hrun|]. split; [exact Hmat|]. split; [exact Hkind|].
    by injection Hpl as -> _ _.
  - destruct (boolean_makes_new_solid fails_to_evaluate morning SUBTRACTION 0 1 _ _ two_solids
                eq_refl eq_refl)
      as (h' & _ & _ & Hrun).
    exact Hrun.
Defined.

End SolidFacts.

(** * What a run keeps *)

Module RunFacts.
Import Engine.

(** ** A relation that every builtin respects holds of a whole run *)

Section Preserved.

Variable color_set : value -> string -> string.
Variable now : nat -> nat.
Variable evaluate : Brush -> Brush -> operation -> outcome Brush.
Variable globals : string -> option value.
Variable R : State -> State -> Prop.

Hypothesis R_refl : forall st, R st st.
Hypothesis R_trans : forall st1 st2 st3, R st1 st2 -> R st2 st3 -> R st1 st3.
Hypothesis R_builtin :
  forall f args st r, apply_builtin color_set now evaluate f args st = Ok r -> R st (snd r).

Lemma eval_list_preserved (ev : expr -> State -> result (value * State))
    (args : list expr) :
  (forall a st r, ev a st = Ok r -> R st (snd r)) ->
  forall st r, eval_list ev args st = Ok r -> R st (snd r).
Proof.
  intros Hev. induction args as [|a rest IH]; intros st r; simpl.
  - intros [= <-]. apply R_refl.
  - destruct (ev a st) as [[v st1]| |] eqn:Ea; simpl; try done.
    destruct (eval_list ev rest st1) as [[vs st2]| |] eqn:Er; simpl; try done.
    intros [= <-]. simpl.
    apply (R_trans st st1 st2); [apply (Hev a st _ Ea)|apply (IH st1 _ Er)].
Qed.

Lemma eval_preserved (fuel : nat) :
  forall e env st r, eval color_set now evaluate globals fuel e env st = Ok r -> R st (snd r).
Proof.
  induction fuel as [|fuel IH]; intros e env st r; [done|].
  destruct e; simpl.
  - destruct (resolve globals x env); simpl; try done. intros [= <-]. apply R_refl.
  - intros [= <-]. apply R_refl.
  - intros [= <-]. apply R_refl.
  - intros [= <-]. apply R_refl.
  - destruct (eval color_set now evaluate globals fuel e env st) as [[f st1]| |] eqn:Ef;
      simpl; try done.
    destruct (eval_list _ args st1) as [[vs st2]| |] eqn:Ea; simpl; try done.
    intros Hcall.
    apply (R_trans st st1 (snd r)); [apply (IH _ _ _ _ Ef)|].
    apply (R_trans st1 st2 (snd r)).
    + apply (eval_list_preserved _ args (fun a st' r' => IH a env st' r') st1 _ Ea).
    + destruct f; try done. by apply (R_builtin f vs st2).
Qed.

Lemma exec_preserved (fuel : nat) :
  forall body env st st', exec color_set now evaluate globals fuel body env st = Ok st' -> R st st'.
Proof.
  induction fuel as [|fuel IH]; intros body env st st'.
  - destruct body; [|done]. intros [= <-]. apply R_refl.
  - destruct body as [|s rest]; [intros [= <-]; apply R_refl|].
    destruct s as [x e|e|cond inner]; cbn [Engine.exec];
      destruct (eval color_set now evaluate globals fuel _ env st) as [[v st1]| |] eqn:Ee;
      cbn [bind fst snd]; try done;
      pose proof (eval_preserved _ _ _ _ _ Ee) as H1; simpl in H1.
    + intros Hrest. apply (R_trans st st1 st'); [done|]. by apply IH in Hrest.
    + intros Hrest. apply (R_trans st st1 st'); [done|]. by apply IH in Hrest.
    + destruct (truthy v).
      * destruct (exec color_set now evaluate globals fuel inner _ st1) as [st2| |] eqn:Ei;
          cbn [bind]; try done.
        intros Hrest. apply (R_trans st st1 st'); [done|].
        apply (R_trans st1 st2 st'); [by apply IH in Ei|by apply IH in Hrest].
      * intros Hrest. apply (R_trans st st1 st'); [done|]. by apply IH in Hrest.
Qed.

End Preserved.

(** ** Objects are only added, solids keep their geometry *)

Lemma grows_refl (st : State) : grows st st.
Proof.
  split; [exists []; by rewrite app_nil_r|]. split; [done|].
  intros k b Hb. by exists b.
Qed.

Lemma grows_trans (st1 st2 st3 : State) : grows st1 st2 -> grows st2 st3 -> grows st1 st3.
Proof.
  intros ((m1 & E1 & F1) & L1 & H1) ((m2 & E2 & F2) & L2 & H2).
  split; [|split; [lia|]].
  - exists (m1 ++ m2). split; [by rewrite E2, E1, <- app_assoc|by apply Forall_app].
  - intros k b Hb. destruct (H1 k b Hb) as (b1 & Hb1 & S1 & T1).
    destruct (H2 k b1 Hb1) as (b2 & Hb2 & S2 & T2).
    exists b2. split; [done|]. split; congruence.
Qed.

Lemma grows_alloc (b : Brush) (mat : MeshStandardMaterial) (st : State) :
  grows st {| heap := heap st ++ [b]; objects := objects st; ctx_material := mat |}.
Proof.
  split; [exists []; by rewrite app_nil_r|]. simpl. split; [rewrite length_app; lia|].
  intros k b0 Hb0. exists b0. split; [|done]. by apply lookup_app_l_Some.
Qed.

Lemma grows_insert (ref : nat) (b b' : Brush) (mat : MeshStandardMaterial) (st : State) :
  heap st !! ref = Some b -> same_solid b b' ->
  grows st {| heap := <[ref := b']> (heap st); objects := objects st;
              ctx_material := mat |}.
Proof.
  intros Hb Hs. split; [exists []; by rewrite app_nil_r|]. simpl. unfold Heap in *.
  split; [by rewrite length_insert|].
  intros k b0 Hb0. destruct (decide (ref = k)) as [->|Hne].
  - exists b'. split; [apply list_lookup_insert_eq; by apply lookup_lt_Some in Hb|].
    assert (b0 = b) by congruence. by subst.
  - exists b0. split; [by rewrite list_lookup_insert_ne|done].
Qed.

Lemma grows_transform (f : list value -> Heap -> result (value * Heap))
    (args : list value) (st : State) (r : value * State) :
  (forall h v h', f args h = Ok (v, h') ->
     h' = h \/ exists ref b b', h !! ref = Some b /\ same_solid b b' /\
                                h' = <[ref := b']> h) ->
  on_heap f args st = Ok r -> grows st (snd r).
Proof.
  intros Hf. unfold on_heap.
  destruct (f args (heap st)) as [[v h']| |] eqn:E; simpl; try done.
  intros [= <-]. simpl.
  destruct (Hf _ _ _ E) as [->|(ref & b & b' & Hb & Hs & ->)].
  - destruct st. apply grows_refl.
  - by apply (grows_insert ref b b').
Qed.

Lemma grows_csg (evaluate : Brush -> Brush -> operation -> outcome Brush)
    (op : operation) (args : list value) (st : State) (r : value * State) :
  on_heap (csg evaluate op) args st = Ok r -> grows st (snd r).
Proof.
  unfold on_heap, csg.
  destruct (negb (truthy (arg 0 args)) || negb (truthy (arg 1 args))).
  { simpl. intros [= <-]. destruct st. apply grows_refl. }
  destruct (arg 0 args) as [| | | | |ra| | |]; simpl; try done.
  destruct (heap st !! ra) as [ba|] eqn:Ha; simpl; [|done].
  destruct (arg 1 args) as [| | | | |rb| | |]; simpl; try done.
  set (st1 := {| heap := <[ra := updateMatrixWorld ba]> (heap st);
                 objects := objects st; ctx_material := ctx_material st |}).
  destruct (<[ra := updateMatrixWorld ba]> (heap st) !! rb) as [bb|] eqn:Hb;
    simpl; [|done].
  set (st2 := {| heap := <[rb := updateMatrixWorld bb]> (heap st1);
                 objects := objects st; ctx_material := ctx_material st |}).
  destruct (<[rb := updateMatrixWorld bb]> (<[ra := updateMatrixWorld ba]> (heap st))
              !! ra) as [ba'|]; simpl; [|done].
  destruct (<[rb := updateMatrixWorld bb]> (<[ra := updateMatrixWorld ba]> (heap st))
              !! rb) as [bb'|]; simpl; [|done].
  destruct (evaluate ba' bb' op) as [result|e]; simpl; [|done].
  unfold alloc. simpl. intros [= <-]. simpl.
  apply (grows_trans st st1); [by apply (grows_insert ra ba)|].
  apply (grows_trans st1 st2); [by apply (grows_insert rb bb _ _ st1)|].
  apply (grows_alloc _ _ st2).
Qed.

Lemma grows_recolour (mat : MeshStandardMaterial) (st : State) :
  grows st {| heap := heap st; objects := objects st; ctx_material := mat |}.
Proof.
  split; [exists []; by rewrite app_nil_r|]. split; [done|].
  intros k b Hb. by exists b.
Qed.

Lemma grows_builtin (color_set : value -> string -> string) (now : nat -> nat)
    (evaluate : Brush -> Brush -> operation -> outcome Brush)
    (f : builtin) (args : list value) (st : State) (r : value * State) :
  apply_builtin color_set now evaluate f args st = Ok r -> grows st (snd r).
Proof.
  destruct f; simpl.
  - unfold on_heap, Box, alloc. simpl. intros [= <-]. apply grows_alloc.
  - unfold on_heap, Sphere, alloc. simpl. intros [= <-]. apply grows_alloc.
  - unfold on_heap, Cylinder, alloc. simpl. intros [= <-]. apply grows_alloc.
  - apply grows_transform. intros h v h'. unfold Move.
    destruct (negb _); [intros [= _ <-]; by left|].
    destruct (arg 0 args); simpl; try done. destruct (h !! ref) as [b|] eqn:Hb; [|done].
    intros [= _ <-]. right. exists ref, b. eexists.
    split; [done|]. split; [|reflexivity]. done.
  - apply grows_transform. intros h v h'. unfold Rotate.
    destruct (negb _); [intros [= _ <-]; by left|].
    destruct (arg 0 args); simpl; try done. destruct (h !! ref) as [b|] eqn:Hb; [|done].
    intros [= _ <-]. right. exists ref, b. eexists.
    split; [done|]. split; [|reflexivity]. done.
  - apply grows_transform. intros h v h'. unfold Scale.
    destruct (negb _); [intros [= _ <-]; by left|].
    destruct (arg 0 args); simpl; try done. destruct (h !! ref) as [b|] eqn:Hb; [|done].
    intros [= _ <-]. right. exists ref, b. eexists.
    split; [done|]. split; [|reflexivity]. done.
  - unfold Color.
    destruct (negb _); [intros [= <-]; apply grows_refl|].
    destruct (arg 0 args) eqn:Emesh;
      try (intros [= <-]; apply grows_recolour);
      apply grows_transform; intros h v h'; simpl; try done.
    destruct (h !! ref) as [b|] eqn:Hb; [|done].
    intros [= _ <-]. right. exists ref, b. eexists.
    split; [done|]. split; [|reflexivity]. done.
  - apply (grows_csg evaluate ADDITION).
  - apply (grows_csg evaluate SUBTRACTION).
  - apply (grows_csg evaluate INTERSECTION).
  - unfold Add. destruct (negb _); [intros [= <-]; apply grows_refl|].
    destruct (arg 0 args); try done. destruct (heap st !! ref) as [b|]; [|done].
    intros [= <-]. simpl. split; [|split; [done|intros k b0 Hb0; by exists b0]].
    eexists. split; [done|]. apply Forall_singleton.
    repeat split. by eexists.
Qed.

(** X14.  Running statements only adds, when the statements reach the
    context through the eleven builtins alone: statements of the part of
    JavaScript taken here, which call no function of the page and read no
    member of [ctx] (the list that [ctx.getResults()] hands out is the list of
    the context itself, and text that holds it can cut it).  Whatever such
    statements are and whatever state they start in, when the run ends the
    objects that were in the result list are still there, in place and as
    they were ([Add] copies what it reads from the brush, so moving or
    recolouring the brush later does not reach them), and what follows them
    are visible, unselected objects of kind MESH with a colour that starts
    with "#".  And every brush is still in its place, with the geometry and
    the kind it was made with: no builtin changes the geometry of a solid,
    whatever the evaluator returns (it is taken to leave its operands as they
    are). *)
Theorem run_only_adds
    (color_set : value -> string -> string) (now : nat -> nat)
    (evaluate : Brush -> Brush -> operation -> outcome Brush)
    (globals : string -> option value)
    (fuel : nat) (body : list stmt) (env : list Scope) (st st' : State) :
  exec color_set now evaluate globals fuel body env st = Ok st' ->
  (exists more, objects st' = objects st ++ more /\ Forall added more) /\
  length (heap st) <= length (heap st') /\
  (forall k b, heap st !! k = Some b ->
     exists b', heap st' !! k = Some b' /\
       geometry b' = geometry b /\ userData_type b' = userData_type b).
Proof.
  apply (exec_preserved color_set now evaluate globals grows grows_refl grows_trans
           (grows_builtin color_set now evaluate)).
Qed.

Lemma run_only_adds_witness :
  exists st',
    exec keep_color morning placed_as_first no_globals 10 add_then_move
      [block_scope add_then_move; body_scope; function_scope] new_context = Ok st' /\
    List.map obj_position (objects st')
    = [(zero, zero, zero); (VNumber (Num 3), zero, zero)] /\
    ((exists more, objects st' = objects new_context ++ more /\ Forall added more) /\
     length (heap new_context) <= length (heap st') /\
     (forall k b, heap new_context !! k = Some b ->
        exists b', heap st' !! k = Some b' /\
          geometry b' = geometry b /\ userData_type b' = userData_type b)).
Proof.
  remember (exec keep_color morning placed_as_first no_globals 10 add_then_move
              [block_scope add_then_move; body_scope; function_scope] new_context)
    as r eqn:E.
  pose proof (run_only_adds keep_color morning placed_as_first no_globals 10 add_then_move
                [block_scope add_then_move; body_scope; function_scope] new_context)
    as H.
  rewrite <- E in H. vm_compute in E. subst r.
  eexists. split; [reflexivity|]. split; [reflexivity|]. by apply H.
Defined.

(** ** The objects a run returns *)

Lemma decimal_no_underscore (n : nat) : no_underscore (decimal n) = true.
Proof.
  unfold decimal. generalize (Nat.to_uint n). intros d.
  induction d; simpl; done.
Qed.

Lemma append_cons (c : Ascii.ascii) (a b : string) :
  String c a +:+ b = String c (a +:+ b).
Proof. reflexivity. Qed.

Lemma append_nil (b : string) : "" +:+ b = b.
Proof. reflexivity. Qed.

Lemma underscore_splits (a a' x y : string) :
  no_underscore a = true -> no_underscore a' = true ->
  a +:+ "_" +:+ x = a' +:+ "_" +:+ y -> a = a'.
Proof.
  revert a'. induction a as [|c a IH]; intros [|c' a'] Ha Ha' E; try done.
  - rewrite !append_cons, !append_nil in E. injection E as <- _.
    by vm_compute in Ha'.
  - rewrite !append_cons, !append_nil in E. injection E as -> _.
    by vm_compute in Ha.
  - rewrite !append_cons in E. injection E as -> E. simpl in Ha, Ha'.
    apply andb_true_iff in Ha as [_ Ha]. apply andb_true_iff in Ha' as [_ Ha'].
    f_equal. by apply (IH a').
Qed.

Lemma stamps_elem (now : nat -> nat) (n : nat) (x : string) :
  x ∈ stamps now n ->
  exists k, k < n /\ x = "obj_" +:+ decimal k +:+ "_" +:+ decimal (now k).
Proof.
  unfold stamps. intros Hx. apply list_elem_of_In, in_map_iff in Hx.
  destruct Hx as (k & <- & Hk). apply in_seq in Hk. exists k. split; [lia|done].
Qed.

(** The identifiers of a run are pairwise distinct, whatever the clock
    shows: the place of the object in the list is part of each. *)
Lemma stamps_NoDup (now : nat -> nat) (n : nat) : NoDup (stamps now n).
Proof.
  induction n as [|n IH]; [apply NoDup_nil_2|].
  rewrite EngineFacts.stamps_S. apply NoDup_app. split; [done|].
  split; [|apply NoDup_singleton].
  intros x Hx Hn. apply list_elem_of_singleton in Hn. subst x.
  apply stamps_elem in Hx as (k & Hk & E).
  apply (SceneFacts.append_inj_r "obj_") in E.
  apply underscore_splits in E; try apply decimal_no_underscore.
  apply SceneFacts.decimal_inj in E. lia.
Qed.

(** X15.  What [execute] returns for a script that reaches the context
    through the eleven builtins alone (a script of the part of JavaScript
    taken here: no call of a function of the page, no member of [ctx] read,
    so the list is touched by [Add] only) is fit for a list of scene objects:
    no two objects have the same identifier, even when the clock does not
    advance during the run, and every object is a visible, unselected object
    of kind MESH whose colour starts with "#". *)
Theorem results_are_distinct_meshes
    (color_set : value -> string -> string) (now : nat -> nat)
    (evaluate : Brush -> Brush -> operation -> outcome Brush)
    (globals : string -> option value) (fuel : nat) (code : list stmt)
    (objs : list CADObject) :
  execute color_set now evaluate globals fuel code = Ok objs ->
  NoDup (List.map id objs) /\ Forall added objs.
Proof.
  unfold execute. destruct (early_error code); [done|].
  set (env := [block_scope code; body_scope; function_scope]).
  assert (H0 : same_run now now new_context new_context) by (by repeat split).
  pose proof (EngineFacts.exec_related color_set evaluate globals now now fuel code env
                new_context new_context H0) as Hrel.
  pose proof (exec_preserved color_set now evaluate globals grows grows_refl grows_trans
                (grows_builtin color_set now evaluate) fuel code env new_context) as Hgrow.
  destruct (exec color_set now evaluate globals fuel code env new_context) as [st| |];
    try done.
  intros [= <-]. simpl in Hrel. destruct Hrel as (_ & _ & Hids & _).
  split; [rewrite Hids; apply stamps_NoDup|].
  destruct (Hgrow st eq_refl) as ((more & E & Hmore) & _). simpl in E. by rewrite E.
Qed.

Lemma results_are_distinct_meshes_witness :
  exists objs,
    execute keep_color frozen placed_as_first no_globals 10 add_then_move = Ok objs /\
    List.map id objs = ["obj_0_1000"; "obj_1_1000"] /\
    NoDup (List.map id objs) /\ Forall added objs.
Proof.
  remember (execute keep_color frozen placed_as_first no_globals 10 add_then_move) as r eqn:E.
  pose proof (results_are_distinct_meshes keep_color frozen placed_as_first no_globals 10 add_then_move)
    as H.
  rewrite <- E in H. vm_compute in E. subst r.
  eexists. split; [reflexivity|]. split; [reflexivity|]. by apply H.
Defined.

Lemma execute_ids
    (color_set : value -> string -> string) (now : nat -> nat)
    (evaluate : Brush -> Brush -> operation -> outcome Brush)
    (globals : string -> option value) (fuel : nat) (code : list stmt)
    (objs : list CADObject) :
  execute color_set now evaluate globals fuel code = Ok objs ->
  List.map id objs = stamps now (length objs).
Proof.
  unfold execute. destruct (early_error code); [done|].
  set (env := [block_scope code; body_scope; function_scope]).
  assert (H0 : same_run now now new_context new_context) by (by repeat split).
  pose proof (EngineFacts.exec_related color_set evaluate globals now now fuel code env
                new_context new_context H0) as Hrel.
  destruct (exec color_set now evaluate globals fuel code env new_context) as [st| |];
    try done.
  intros [= <-]. simpl in Hrel. by destruct Hrel as (_ & _ & Hids & _).
Qed.

(** X16.  Two runs of scripts that reach the context through the eleven
    builtins alone (scripts of the part of JavaScript taken here, which leave
    the identifiers as [Add] made them), under clocks that never show the same
    time at the same place, share no identifier, whether they run the same
    script or not: an object of the second run is never found under the
    identifier of an object of the first, so an identifier kept from one run
    (a selection) names nothing in the next. *)
Theorem runs_share_no_identifier
    (color_set : value -> string -> string) (evaluate : Brush -> Brush -> operation -> outcome Brush)
    (globals : string -> option value)
    (now1 now2 : nat -> nat) (fuel1 fuel2 : nat) (code1 code2 : list stmt)
    (l1 l2 : list CADObject) :
  (forall k, now1 k <> now2 k) ->
  execute color_set now1 evaluate globals fuel1 code1 = Ok l1 ->
  execute color_set now2 evaluate globals fuel2 code2 = Ok l2 ->
  forall o1 o2, o1 ∈ l1 -> o2 ∈ l2 -> id o1 <> id o2.
Proof.
  intros Hclock E1 E2 o1 o2 H1 H2 Heq.
  apply execute_ids in E1, E2.
  assert (Hs1 : id o1 ∈ stamps now1 (length l1)).
  { rewrite <- E1. apply list_elem_of_In, in_map. by apply list_elem_of_In. }
  assert (Hs2 : id o2 ∈ stamps now2 (length l2)).
  { rewrite <- E2. apply list_elem_of_In, in_map. by apply list_elem_of_In. }
  apply stamps_elem in Hs1 as (k1 & _ & K1). apply stamps_elem in Hs2 as (k2 & _ & K2).
  rewrite K1, K2 in Heq. apply (SceneFacts.append_inj_r "obj_") in Heq.
  pose proof (underscore_splits _ _ _ _ (decimal_no_underscore k1)
                (decimal_no_underscore k2) Heq) as Hk.
  apply SceneFacts.decimal_inj in Hk. subst k2.
  apply SceneFacts.append_inj_r in Heq.
  apply (SceneFacts.append_inj_r "_") in Heq.
  apply SceneFacts.decimal_inj in Heq. by apply (Hclock k1).
Qed.

Lemma runs_share_no_identifier_witness :
  exists l1 l2,
    execute keep_color morning placed_as_first no_globals 6 two_cubes = Ok l1 /\
    execute keep_color evening placed_as_first no_globals 10 add_then_move = Ok l2 /\
    List.map id l1 = ["obj_0_1000"; "obj_1_1001"] /\
    List.map id l2 = ["obj_0_2000"; "obj_1_2001"] /\
    Forall (fun o1 => Forall (fun o2 => id o1 <> id o2) l2) l1.
Proof.
  pose proof (runs_share_no_identifier keep_color placed_as_first no_globals morning evening 6 10
                two_cubes add_then_move) as H.
  remember (execute keep_color morning placed_as_first no_globals 6 two_cubes) as r1 eqn:E1.
  remember (execute keep_color evening placed_as_first no_globals 10 add_then_move) as r2 eqn:E2.
  vm_compute in E1, E2. subst r1 r2.
  eexists _, _. split; [reflexivity|]. split; [reflexivity|].
  split; [reflexivity|]. split; [reflexivity|].
  apply Forall_forall. intros o1 H1. apply Forall_forall. intros o2 H2.
  apply (H _ _ (fun k => ltac:(unfold morning, evening; lia)) eq_refl eq_refl o1 o2 H1 H2).
Defined.

End RunFacts.

(** * Properties of the services and of the application *)

Module AssistantFacts.
Import Assistant.

(** ** The prefix of a data URL *)

Lemma after_append (p s : string) : after p (p +:+ s) = Some s.
Proof.
  induction p as [|a p IH]; [by destruct s|].
  change (after (String a p) (String a (p +:+ s)) = Some s). simpl.
  by rewrite Ascii.eqb_refl.
Qed.

Lemma after_Some (p s r : string) : after p s = Some r -> s = p +:+ r.
Proof.
  revert s. induction p as [|a p IH]; intros s; simpl.
  - destruct s; by intros [= <-].
  - destruct s as [|b s]; [done|]. destruct (Ascii.eqb_spec a b) as [<-|]; [|done].
    intros H. apply IH in H. subst s. reflexivity.
Qed.

Lemma word_run_spec (s : string) :
  s = fst (word_run s) +:+ snd (word_run s) /\ all_word (fst (word_run s)) = true.
Proof.
  induction s as [|c s [IH1 IH2]]; simpl; [done|].
  destruct (is_word c) eqn:Hc; [|done].
  destruct (word_run s) as [w r]. simpl in *. rewrite Hc, IH2. split; [|done].
  change (String c s = String c (w +:+ r)). by f_equal.
Qed.

Lemma word_run_append (w tail : string) :
  all_word w = true ->
  fst (word_run tail) = "" ->
  word_run (w +:+ tail) = (w, snd (word_run tail)).
Proof.
  intros Hw Ht. induction w as [|c w IH].
  - change (word_run tail = ("", snd (word_run tail))).
    destruct (word_run tail) as [a b]. simpl in *. by subst.
  - simpl in Hw. apply andb_true_iff in Hw as [Hc Hw].
    change (word_run (String c (w +:+ tail)) = (String c w, snd (word_run tail))).
    simpl. by rewrite Hc, (IH Hw).
Qed.

(** X17.  What the vision model is sent of a capture.  [strip_data_url]
    (the [replace] of [evaluateRender]) returns the payload of a data URL of
    an image, "data:image/", a kind, ";base64," and the payload, whatever the
    kind and the payload are; it returns any other text as it is; and in
    every case what it returns is the text it was given without some prefix.
    So the eight captures of a canvas that gives PNG data URLs reach the model
    as eight parts of type "image/png" that hold the bare payloads, in the
    order of the views. *)
Theorem data_url_prefix_is_stripped :
  (forall kind payload,
     kind <> "" -> all_word kind = true ->
     strip_data_url ("data:image/" +:+ kind +:+ ";base64," +:+ payload) = payload) /\
  (forall s,
     strip_data_url s = s \/
     exists kind payload,
       kind <> "" /\ all_word kind = true /\
       s = "data:image/" +:+ kind +:+ ";base64," +:+ payload /\
       strip_data_url s = payload) /\
  (forall s, exists prefix, s = prefix +:+ strip_data_url s) /\
  (forall payload : nat -> string,
     imageParts (captureViews (fun i => "data:image/png;base64," +:+ payload i))
     = List.map (fun i => {| mimeType := "image/png"; data := payload i |}) (seq 0 8)).
Proof.
  assert (Hstrip : forall kind payload,
            kind <> "" -> all_word kind = true ->
            strip_data_url ("data:image/" +:+ kind +:+ ";base64," +:+ payload)
            = payload).
  { intros kind payload Hne Hw. unfold strip_data_url.
    rewrite after_append.
    rewrite (word_run_append kind (";base64," +:+ payload) Hw eq_refl).
    change (snd (word_run (";base64," +:+ payload))) with (";base64," +:+ payload).
    rewrite after_append. by destruct kind. }
  assert (Hshape : forall s,
            strip_data_url s = s \/
            exists kind payload,
              kind <> "" /\ all_word kind = true /\
              s = "data:image/" +:+ kind +:+ ";base64," +:+ payload /\
              strip_data_url s = payload).
  { intros s. unfold strip_data_url.
    destruct (after "data:image/" s) as [rest|] eqn:E1; [|by left].
    destruct (word_run_spec rest) as [E2 Hw].
    destruct (word_run rest) as [kind tail]. simpl in E2, Hw.
    destruct kind as [|c kind]; [by left|].
    destruct (after ";base64," tail) as [payload|] eqn:E3; [|by left].
    right. exists (String c kind), payload. split; [done|]. split; [done|].
    split; [|done]. apply after_Some in E1, E3. by rewrite E1, E2, E3. }
  split; [exact Hstrip|]. split; [exact Hshape|]. split.
  - intros s. destruct (Hshape s) as [->|(kind & payload & _ & _ & E & ->)].
    + by exists "".
    + exists ("data:image/" +:+ kind +:+ ";base64,"). rewrite E.
      clear. generalize ("data:image/" : string). intros a.
      induction a as [|c a IH]; simpl.
      * induction kind as [|c kind IH]; [done|].
        change (String c (kind +:+ ";base64," +:+ payload)
                = String c ((kind +:+ ";base64,") +:+ payload)). by f_equal.
      * change (String c (a +:+ kind +:+ ";base64," +:+ payload)
                = String c ((a +:+ kind +:+ ";base64,") +:+ payload)). by f_equal.
  - intros payload. unfold imageParts, captureViews. rewrite map_map.
    apply map_ext. intros i. simpl. f_equal.
Qed.

Lemma data_url_prefix_is_stripped_witness :
  strip_data_url "data:image/jpeg;base64,/9j/4AAQ" = "/9j/4AAQ" /\
  strip_data_url "data:," = "data:," /\
  strip_data_url "iVBORw0KGgo=" = "iVBORw0KGgo=" /\
  List.map data (imageParts (captureViews png_frame))
  = List.map (fun _ => "iVBORw0KGgo=") (seq 0 8).
Proof.
  split; [|split; [reflexivity|split; [reflexivity|]]].
  - apply (proj1 data_url_prefix_is_stripped "jpeg" "/9j/4AAQ"); done.
  - reflexivity.
Defined.

(** ** The visual check *)

(** X18.  [evaluateRender] fails open.  Given a list of images it resolves,
    whatever the call of the model comes to; a verdict other than "looks
    correct" is only ever the verdict of an answer that parsed, so a call that
    rejects, an empty response and a text that does not parse all count as a
    pass; and the critique it returns is never empty.  It rejects in one case
    only, when it is given no list. *)
Theorem evaluateRender_fails_open
    (images : option (list View)) (model : list InlineData -> Answer Feedback) :
  (is_Some (evaluateRender images model) <-> is_Some images) /\
  (forall a, evaluateRender images model = Some a ->
     critique a <> "" /\
     (looksCorrect a <> Some true ->
      exists imgs parsed,
        images = Some imgs /\ model (imageParts imgs) = Json parsed /\
        parsed_looksCorrect parsed = looksCorrect a)) /\
  (forall imgs, images = Some imgs ->
     (forall parsed, model (imageParts imgs) <> Json parsed) ->
     exists a, evaluateRender images model = Some a /\
       looksCorrect a = Some true /\ suggestion a = "").
Proof.
  split; [|split].
  - unfold evaluateRender. destruct images; split; intros [x Hx]; try done; by eexists.
  - intros a. unfold evaluateRender. destruct images as [imgs|]; [|done].
    destruct (model (imageParts imgs)) as [| | |parsed] eqn:E; intros [= <-]; simpl;
      try (split; [done|]; by intros []).
    split.
    + unfold Scene.or_string. destruct (parsed_critique parsed) as [x|]; [|done].
      by destruct (String.eqb_spec x "").
    + intros _. by exists imgs, parsed.
  - intros imgs -> Hno. unfold evaluateRender.
    destruct (model (imageParts imgs)) as [| | |parsed] eqn:E;
      try (eexists; split; [reflexivity|]; by split).
    by destruct (Hno parsed).
Qed.

Lemma evaluateRender_fails_open_witness :
  exists a,
    evaluateRender (Some (captureViews png_frame)) (fun _ => Garbled) = Some a /\
    looksCorrect a = Some true /\ suggestion a = "".
Proof.
  apply (proj2 (proj2 (evaluateRender_fails_open (Some (captureViews png_frame))
                         (fun _ => Garbled))) (captureViews png_frame) eq_refl).
  intros parsed. discriminate.
Defined.

End AssistantFacts.

Module AppFacts.
Import Engine.
Import Assistant.
Import App.

Section Page.

Variable color_set : value -> string -> string.
Variable evaluate : Brush -> Brush -> operation -> outcome Brush.
Variable globals : string -> option value.

Abbreviation in_sync := (App.in_sync color_set evaluate globals).
Abbreviation handleSendMessage := (App.handleSendMessage color_set evaluate globals).
Abbreviation mount := (App.mount color_set evaluate globals).
Abbreviation session := (App.session color_set evaluate globals).

Lemma in_sync_initial : in_sync initial.
Proof. exists (fun _ => 0), 0. reflexivity. Qed.

Lemma in_sync_loading (b : bool) (st : State) : in_sync st -> in_sync (setIsAiLoading b st).
Proof. intros (now & fuel & H). by exists now, fuel. Qed.

Lemma in_sync_show (now : nat -> nat) (fuel : nat) (text : ScriptText)
    (objs : list CADObject) (st : State) :
  run_script color_set evaluate globals now fuel text = Ok objs -> in_sync (show objs text st).
Proof. intros H. by exists now, fuel. Qed.

Lemma handleSendMessage_in_sync (fuel : nat) (t : Turn) (st st' : State) :
  in_sync st -> handleSendMessage fuel t st = Ok st' ->
  in_sync st' /\ isAiLoading st' = false.
Proof.
  intros Hst. unfold App.handleSendMessage.
  pose proof (in_sync_loading false (setIsAiLoading true st)
                (in_sync_loading true st Hst)) as Hidle.
  destruct (generateScript (coder t)) as [reply|]; [|by intros [= <-]].
  destruct (run_script color_set evaluate globals (clock t) fuel (code reply)) as [objs| |] eqn:E1;
    [|by intros [= <-]|done].
  pose proof (in_sync_loading false _
                (in_sync_show _ _ _ _ (setIsAiLoading true st) E1)) as H1.
  destruct (viewer t) as [handle|]; [|by intros [= <-]].
  destruct (0 <? length objs)%nat; [|by intros [= <-]].
  destruct (evaluateRender _ _) as [analysis|]; [|by intros [= <-]].
  destruct (rejected_by analysis); [|by intros [= <-]].
  destruct (fixScript (fixer t)) as [fixed|]; [|by intros [= <-]].
  destruct (run_script color_set evaluate globals (clock' t) fuel (code fixed)) as [objs2| |] eqn:E2;
    [|by intros [= <-]|done].
  intros [= <-]. split; [|done].
  apply in_sync_loading. by apply (in_sync_show (clock' t) fuel).
Qed.

Lemma session_in_sync (fuel : nat) (turns : list Turn) :
  forall st st', in_sync st -> session fuel turns st = Ok st' -> in_sync st'.
Proof.
  induction turns as [|t rest IH]; intros st st' Hst; simpl.
  - by intros [= <-].
  - destruct (handleSendMessage fuel t st) as [st1| |] eqn:E; simpl; try done.
    apply IH. by apply (handleSendMessage_in_sync fuel t st st1).
Qed.

(** X19.  The scene on screen is always the result of the script that
    "Export" downloads.  When the application is mounted the starter script
    runs to its end and shows one object, "Starter Cube"; from then on,
    whatever the model, the vision check and the clock answer in any number of
    messages, [objects] is what a run of [currentScript] returned: a script is
    never stored without the objects of its run, nor objects without their
    script, and a script that threw or did not parse is never stored.  After a
    message is handled, [isAiLoading] is off. *)
Theorem scene_follows_script :
  in_sync initial /\
  (forall now more, exists o,
     mount now (5 + more) initial
     = Ok {| objects := [o]; currentScript := Source initialScript;
             isAiLoading := false |} /\
     name o = VString "Starter Cube" /\
     obj_color o = "#" +:+ color_set (VString "#3b82f6") "cccccc") /\
  (forall now fuel st st', in_sync st -> mount now fuel st = Ok st' -> in_sync st') /\
  (forall fuel t st st', in_sync st -> handleSendMessage fuel t st = Ok st' ->
     in_sync st' /\ isAiLoading st' = false) /\
  (forall fuel turns st st', in_sync st -> session fuel turns st = Ok st' -> in_sync st').
Proof.
  split; [apply in_sync_initial|]. split; [|split; [|split]].
  - intros now more. unfold App.mount, run_script.
    match goal with |- context [execute ?c ?n ?ev ?g ?f ?code] =>
      remember (execute c n ev g f code) as r eqn:E end.
    vm_compute in E. subst r. eexists. split; [reflexivity|]. by split.
  - intros now fuel st st' Hst. unfold App.mount.
    destruct (run_script color_set evaluate globals now fuel (Source initialScript))
      as [objs| |] eqn:E; try done.
    + intros [= <-]. by apply (in_sync_show now fuel).
    + by intros [= <-].
  - apply handleSendMessage_in_sync.
  - intros fuel turns. apply session_in_sync.
Qed.


End Page.

Lemma scene_follows_script_witness :
  exists st st',
    App.mount keep_color placed_as_first no_globals morning 5 initial = Ok st /\
    App.session keep_color placed_as_first no_globals 10 [quiet_turn; fixing_turn] st = Ok st' /\
    currentScript st' = Source add_then_move /\
    App.in_sync keep_color placed_as_first no_globals st'.
Proof.
  remember (App.mount keep_color placed_as_first no_globals morning 5 initial) as r eqn:E.
  vm_compute in E. subst r. eexists. eexists. split; [reflexivity|].
  match goal with |- context [App.session ?c ?ev ?g ?f ?ts ?s] =>
    remember (App.session c ev g f ts s) as r eqn:E end.
  pose proof (proj2 (proj2 (proj2 (proj2 (scene_follows_script keep_color placed_as_first no_globals))))
                10 [quiet_turn; fixing_turn]) as H.
  pose proof (proj1 (proj2 (proj2 (scene_follows_script keep_color placed_as_first no_globals)))
                morning 5 initial) as Hm.
  match type of E with _ = App.session _ _ _ _ _ ?s0 => specialize (H s0) end.
  rewrite <- E in H. vm_compute in E. subst r.
  split; [reflexivity|]. split; [reflexivity|].
  apply H; [|reflexivity]. apply Hm; [|reflexivity].
  apply (proj1 (scene_follows_script keep_color placed_as_first no_globals)).
Defined.


End AppFacts.
